(** * rc4fun: the RC4 brute-force search of [main.cpp]

    A shallow embedding of the OpenCL kernel [rc4_decrypt], of the plaintext
    validator [is_valid_plaintext] and of the host search loop
    [brute_force_rc4_gpu], followed by the properties of the design
    description that can be settled on them.

    Conventions.  C integers ([int], [uchar], [char], [size_t]) are values of
    [Z]; a conversion that can change the value is written out ([to_uchar],
    [int_of_size_t]).  The C operator [%] truncates towards zero and is
    [Z.rem].  Buffers and the table [S] are lists indexed with stdpp's lookup
    and insert. *)

From Stdlib Require Import ZArith Lia String Factorial.
From stdpp Require Import base list list_numbers.

Local Open Scope Z_scope.

(** ** Machine integers and buffers *)

(** A value of type [uchar] / [unsigned char]. *)
Definition is_uchar (x : Z) : Prop := 0 <= x < 256.

(** Conversion of an integer to [unsigned char]: reduction modulo 2^8. *)
Definition to_uchar (x : Z) : Z := x mod 256.

(** What a kernel argument of [sizeof(int)] bytes holds when it is bound
    from the address of a [size_t] (or read from [get_global_id]): the low 32
    bits, as a signed [int]. *)
Definition int_of_size_t (x : Z) : Z :=
  let low := x mod 2 ^ 32 in
  if low <? 2 ^ 31 then low else low - 2 ^ 32.

(** [a[k]] as an rvalue and [a[k] = v] on a buffer; an index outside the
    buffer is never used by the code, the model reads 0 and writes nothing
    there. *)
Definition rd (a : list Z) (k : Z) : Z := a !!! Z.to_nat k.
Definition wr (a : list Z) (k v : Z) : list Z := <[Z.to_nat k := v]> a.

(** [for (int k = lo; k < hi; k++) body], as a left fold over the index
    values. *)
Definition for_range {St : Type} (lo hi : Z) (body : Z -> St -> St) (st : St) : St :=
  foldl (fun s k => body k s) st (seqZ lo (hi - lo)).

(** ** The kernel [rc4_decrypt] *)

Module Kernel.

(** Lines 21-24: the local table [S] (here [Sb]), filled with the identity. *)
Definition init_table : list Z :=
  for_range 0 256 (fun k Sb => wr Sb k (to_uchar k)) (replicate 256 0).

(** Lines 26-29: one step of the key-scheduling loop. *)
Definition ksa_step (keys : list Z) (key_length : Z) (k : Z) (st : Z * list Z)
  : Z * list Z :=
  let '(j, Sb) := st in
  let j := Z.rem (j + rd Sb k + rd keys (Z.rem k key_length)) 256 in
  let temp := rd Sb k in
  let Sb := wr Sb k (rd Sb j) in
  let Sb := wr Sb j temp in
  (j, Sb).

(** Lines 20-30: the table after the key-scheduling pass. *)
Definition ksa (keys : list Z) (key_length : Z) : list Z :=
  snd (for_range 0 256 (ksa_step keys key_length) (0, init_table)).

(** Lines 33-37: one advance of the cursor pair. *)
Definition prga_step (st : Z * Z * list Z) : Z * Z * list Z :=
  let '(i, j, Sb) := st in
  let i := Z.rem (i + 1) 256 in
  let j := Z.rem (j + rd Sb i) 256 in
  let temp := rd Sb i in
  let Sb := wr Sb i (rd Sb j) in
  let Sb := wr Sb j temp in
  (i, j, Sb).

(** The table entry selected by the two cursors, [S[(S[i] + S[j]) % 256]]. *)
Definition emit (st : Z * Z * list Z) : Z :=
  let '(i, j, Sb) := st in
  rd Sb (Z.rem (rd Sb i + rd Sb j) 256).

(** Lines 31-38: the state of work item [gid] when it reaches line 39. *)
Definition advance (keys : list Z) (key_length gid : Z) : Z * Z * list Z :=
  for_range 0 gid (fun _ => prga_step) (0, 0, ksa keys key_length).

(** The keystream byte work item [gid] XORs into its position. *)
Definition keystream_byte (keys : list Z) (key_length gid : Z) : Z :=
  emit (advance keys key_length gid).

(** Lines 18-40: the effect of work item [gid] on [decrypted_data]. *)
Definition rc4_decrypt (encrypted_data decrypted_data keys : list Z)
    (key_length data_length : Z) (gid : Z) : list Z :=
  if gid <? data_length then
    wr decrypted_data gid
       (to_uchar (Z.lxor (rd encrypted_data gid)
                         (keystream_byte keys key_length gid)))
  else decrypted_data.

(** One launch of [global_work_size] work items; item [id] sees
    [gid = (int) get_global_id(0)].  The items write disjoint cells, so the
    order in which the fold runs them is immaterial. *)
Definition run_kernel (encrypted_data decrypted_data keys : list Z)
    (key_length data_length : Z) (global_work_size : Z) : list Z :=
  for_range 0 global_work_size
    (fun id out =>
       rc4_decrypt encrypted_data out keys key_length data_length (int_of_size_t id))
    decrypted_data.

(** The table holds every byte value exactly once. *)
Definition identity : list Z := seqZ 0 256.

(** A state of the cursor loop whose cursors index the table and whose table
    is a permutation of 0..255. *)
Definition valid_state (st : Z * Z * list Z) : Prop :=
  let '(i, j, Sb) := st in is_uchar i /\ is_uchar j /\ Sb ≡ₚ identity.

(** The byte line 39 stores at position [p]. *)
Definition plain_byte (encrypted_data keys : list Z) (key_length : Z) (p : nat) : Z :=
  to_uchar (Z.lxor (rd encrypted_data (Z.of_nat p))
                   (keystream_byte keys key_length (Z.of_nat p))).

End Kernel.

(** ** Reference serial generator

    The serial RC4 keystream generator the design description compares the
    kernel with: the same key-scheduling pass, then one cursor advance before
    every output byte, the state carried from byte to byte. *)

Module Reference.

Fixpoint generate (n : nat) (st : Z * Z * list Z) : list Z :=
  match n with
  | O => []
  | S n' => let st' := Kernel.prga_step st in Kernel.emit st' :: generate n' st'
  end.

Definition keystream (keys : list Z) (key_length : Z) (n : nat) : list Z :=
  generate n (0, 0, Kernel.ksa keys key_length).

(** Encryption with the serial generator: byte [p] of the data XORed with
    byte [p] of its keystream. *)
Definition encrypt (data keys : list Z) (key_length : Z) : list Z :=
  zip_with Z.lxor data (keystream keys key_length (length data)).

End Reference.

(** ** The validator [is_valid_plaintext] *)

(** [isprint] and [isspace] of <cctype>, which the source calls but does not
    define.  The program never calls [setlocale], so they classify in the "C"
    locale: the printable characters are 0x20..0x7E, the white-space
    characters are space, [\t], [\n], [\v], [\f] and [\r] (9..13). *)
Definition isprint (c : Z) : bool := (32 <=? c) && (c <=? 126).
Definition isspace (c : Z) : bool := (c =? 32) || ((9 <=? c) && (c <=? 13)).

(** [std::all_of]: the first element that fails the predicate ends the walk. *)
Fixpoint all_of {A : Type} (pred : A -> bool) (data : list A) : bool :=
  match data with
  | [] => true
  | c :: rest => if pred c then all_of pred rest else false
  end.

(** Lines 44-49. *)
Definition is_valid_plaintext (data : list Z) : bool :=
  all_of (fun c => isprint c || isspace c) data.

(** ** [std::next_permutation]

    The standard algorithm the search calls on [key_str], on a list of [char]
    values compared with [<]: walk back from the end to the last position
    whose element is smaller than its successor (the pivot); without one,
    reverse the whole range and answer [false]; otherwise exchange the pivot
    with the last element greater than it, reverse what follows the pivot and
    answer [true]. *)

Module Std.

(** Walks back from [i1]; [before] holds the elements in front of [i1],
    nearest first, [tail] the elements behind it.  Answers the elements in
    front of the pivot (nearest first), the pivot and the elements behind it. *)
Fixpoint find_pivot (before : list Z) (i1 : Z) (tail : list Z)
  : option (list Z * Z * list Z) :=
  match before with
  | [] => None
  | i :: before' =>
      if i <? i1 then Some (before', i, i1 :: tail)
      else find_pivot before' i (i1 :: tail)
  end.

(** On the reversed suffix: exchanges the pivot with the first element
    greater than it, that is, with the last such element of the suffix. *)
Fixpoint swap_first_greater (pivot : Z) (rsuffix : list Z) : option (Z * list Z) :=
  match rsuffix with
  | [] => None
  | i2 :: rest =>
      if pivot <? i2 then Some (i2, pivot :: rest)
      else match swap_first_greater pivot rest with
           | Some (x, rest') => Some (x, i2 :: rest')
           | None => None
           end
  end.

Definition next_permutation (l : list Z) : bool * list Z :=
  match rev l with
  | [] => (false, l)
  | last :: before =>
      match find_pivot before last [] with
      | None => (false, rev l)
      | Some (front, pivot, suffix) =>
          match swap_first_greater pivot (rev suffix) with
          | Some (x, rsuffix) => (true, rev front ++ x :: rsuffix)
          | None => (true, l)
          end
      end
  end.

End Std.

(** ** The OpenCL backend

    The host code talks to the accelerator through OpenCL calls.  Each call
    is recorded, in program order, in a trace; the status it returns is given
    by an oracle over the calls made so far, so that any call may fail at any
    time.  A memory object is named by the position of the [clCreateBuffer]
    call that created it. *)

Definition CL_SUCCESS : Z := 0.
Definition CL_MEM_WRITE_ONLY : Z := 2.
Definition CL_MEM_READ_ONLY : Z := 4.
Definition CL_MEM_COPY_HOST_PTR : Z := 32.

Inductive cl_arg : Type :=
| ArgMem (buf : nat)
| ArgInt (value : Z).

Inductive cl_call : Type :=
| clGetPlatformIDs
| clGetDeviceIDs
| clCreateContext
| clCreateCommandQueueWithProperties
| clCreateProgramWithSource
| clBuildProgram
| clGetProgramBuildInfo
| clCreateKernel
| clCreateBuffer (flags size : Z) (host_ptr : option (list Z))
| clSetKernelArg (arg_index : Z) (arg : cl_arg)
| clEnqueueNDRangeKernel (global_work_size : Z)
| clEnqueueReadBuffer (buf : nat) (size : Z)
| clReleaseMemObject (buf : nat).

(** What the program writes to [std::cout] and [std::cerr]. *)
Inductive stream : Type := Cout | Cerr.

Inductive item : Type :=
| Text (s : string)
| Int (v : Z)
| Str (chars : list Z)
| Seconds (ticks : Z)
| BuildLog.

(** How a call of [brute_force_rc4_gpu] ends.  [OutOfFuel] is the model's
    own: the [do ... while] loop is run for at most as many rounds as the key
    string has permutations, which [std::next_permutation] never exceeds. *)
Inductive result : Type :=
| Return (data : list Z)
| Throw (what : string)
| OutOfFuel.

Record machine : Type := Machine {
  trace : list cl_call;           (* the OpenCL calls made, oldest first *)
  console : list (stream * list item);  (* the lines written, oldest first *)
  device_out : list Z;            (* contents of decrypted_data_buffer *)
  decrypted_data : list Z;        (* the host vector of that name *)
}.

Definition set_trace (t : list cl_call) (m : machine) : machine :=
  Machine t (console m) (device_out m) (decrypted_data m).
Definition set_console (c : list (stream * list item)) (m : machine) : machine :=
  Machine (trace m) c (device_out m) (decrypted_data m).
Definition set_device_out (d : list Z) (m : machine) : machine :=
  Machine (trace m) (console m) d (decrypted_data m).
Definition set_decrypted_data (d : list Z) (m : machine) : machine :=
  Machine (trace m) (console m) (device_out m) d.

(** A statement either falls through with a value or leaves the function
    ([return], [throw]). *)
Inductive step (A : Type) : Type :=
| Go (a : A)
| Stop (r : result).
Arguments Go {A} a.
Arguments Stop {A} r.

Definition M (A : Type) : Type := machine -> step A * machine.

Definition ret {A : Type} (a : A) : M A := fun m => (Go a, m).

Definition bind {A B : Type} (c : M A) (k : A -> M B) : M B :=
  fun m =>
    match c m with
    | (Go a, m') => k a m'
    | (Stop r, m') => (Stop r, m')
    end.

Declare Scope search_scope.
Delimit Scope search_scope with search.
Notation "'let*' x ':=' c 'in' k" := (bind c (fun x => k))
  (at level 10, x name, c at level 100, k at level 200) : search_scope.
Notation "'run' c 'in' k" := (bind c (fun _ => k))
  (at level 10, c at level 100, k at level 200) : search_scope.

Definition leave {A : Type} (r : result) : M A := fun m => (Stop r, m).
Definition ask {A : Type} (f : machine -> A) : M A := fun m => (Go (f m), m).
Definition modify (f : machine -> machine) : M unit := fun m => (Go tt, f m).

Definition say (s : stream) (l : list item) : M unit :=
  modify (fun m => set_console (console m ++ [(s, l)]) m).

Module Search.

(** [charset[0]]; on an empty [std::string] this is the terminating NUL. *)
Definition charset_front (charset : list Z) : Z := nth 0 charset 0.

(** *** What the loops enumerate

    The key strings the [do ... while] loop visits from [key_str] on, then
    those of one key length (the loop starts from [key_length] copies of
    [charset[0]]), then those of the whole search, in the order of the
    [for] loop. *)
Fixpoint permutations_from (fuel : nat) (key_str : list Z) : list (list Z) :=
  match fuel with
  | O => []
  | S fuel' =>
      key_str ::
      (let '(more, key_str') := Std.next_permutation key_str in
       if more then permutations_from fuel' key_str' else [])
  end.

Definition candidates_of_length (charset : list Z) (key_length : Z)
  : list (list Z) :=
  permutations_from (fact (Z.to_nat key_length))
    (replicate (Z.to_nat key_length) (charset_front charset)).

Definition candidates (charset : list Z) (max_key_length : Z) : list (list Z) :=
  flat_map (candidates_of_length charset) (seqZ 1 max_key_length).

(** What one dispatch computes from the ciphertext and a key string: the
    launch of line 151 on a fresh output buffer, with the arguments bound in
    lines 140-144. *)
Definition dispatch (encrypted_data key_str : list Z) : list Z :=
  let data_length := Z.of_nat (length encrypted_data) in
  Kernel.run_kernel encrypted_data (replicate (length encrypted_data) 0)
    (map to_uchar key_str) (Z.of_nat (length key_str))
    (int_of_size_t data_length) data_length.

(** *** Reading a trace *)

(** The host data of the buffers created with [CL_MEM_COPY_HOST_PTR]: the
    ciphertext, then every key the search has handed to the backend. *)
Definition uploads (t : list cl_call) : list (list Z) :=
  omap (fun c => match c with
                 | clCreateBuffer _ _ (Some host) => Some host
                 | _ => None
                 end) t.

(** The work sizes of the kernel launches. *)
Definition launches (t : list cl_call) : list Z :=
  omap (fun c => match c with
                 | clEnqueueNDRangeKernel n => Some n
                 | _ => None
                 end) t.

(** The buffers read back. *)
Definition read_backs (t : list cl_call) : list nat :=
  omap (fun c => match c with
                 | clEnqueueReadBuffer b _ => Some b
                 | _ => None
                 end) t.

(** Whether the memory object [buf] has been released. *)
Definition released (t : list cl_call) (buf : nat) : bool :=
  existsb (fun c => match c with
                    | clReleaseMemObject b => Nat.eqb b buf
                    | _ => false
                    end) t.

(** The calls whose status the code tests. *)
Definition checked (c : cl_call) : bool :=
  match c with
  | clGetProgramBuildInfo | clReleaseMemObject _ => false
  | _ => true
  end.

(** The [what()] of the exception thrown when a tested call fails. *)
Definition diagnosis (c : cl_call) : string :=
  match c with
  | clGetPlatformIDs | clGetDeviceIDs => "OpenCL initialization error"
  | clCreateContext => "OpenCL context creation error"
  | clCreateCommandQueueWithProperties => "OpenCL command queue creation error"
  | clCreateProgramWithSource => "OpenCL program creation error"
  | clBuildProgram => "OpenCL program build error"
  | clCreateKernel => "OpenCL kernel creation error"
  | clCreateBuffer _ _ _ => "OpenCL buffer creation error"
  | clSetKernelArg _ _ => "OpenCL kernel argument setting error"
  | clEnqueueNDRangeKernel _ => "OpenCL kernel enqueue error"
  | clEnqueueReadBuffer _ _ => "OpenCL buffer read error"
  | clGetProgramBuildInfo | clReleaseMemObject _ => ""
  end.

(** The calls the code still makes after call [c] has failed, before it
    throws: the remaining argument bindings of lines 141-144, and the two
    queries for the build log. *)
Definition follows (c c' : cl_call) : bool :=
  match c, c' with
  | clSetKernelArg _ _, clSetKernelArg _ _ => true
  | clBuildProgram, clGetProgramBuildInfo => true
  | _, _ => false
  end.

(** The calls that do no work on a candidate: binding an argument, and
    fetching the build log. *)
Definition passive (c : cl_call) : bool :=
  match c with
  | clSetKernelArg _ _ | clGetProgramBuildInfo => true
  | _ => false
  end.

(** The calls of lines 63-118, all successful. *)
Definition setup_calls (encrypted_data : list Z) : list cl_call :=
  let data_length := Z.of_nat (length encrypted_data) in
  [clGetPlatformIDs; clGetDeviceIDs; clCreateContext;
   clCreateCommandQueueWithProperties; clCreateProgramWithSource;
   clBuildProgram; clCreateKernel;
   clCreateBuffer (Z.lor CL_MEM_READ_ONLY CL_MEM_COPY_HOST_PTR) data_length
     (Some encrypted_data);
   clCreateBuffer CL_MEM_WRITE_ONLY data_length None].

(** The calls of one round of the [do ... while] loop, lines 134-157, when
    they all succeed; [keys_buffer] names the buffer the first one creates. *)
Definition attempt_calls (encrypted_data : list Z) (encrypted_data_buffer
    decrypted_data_buffer keys_buffer : nat) (key_str : list Z) : list cl_call :=
  let data_length := Z.of_nat (length encrypted_data) in
  [clCreateBuffer (Z.lor CL_MEM_READ_ONLY CL_MEM_COPY_HOST_PTR)
     (Z.of_nat (length (map to_uchar key_str))) (Some (map to_uchar key_str));
   clSetKernelArg 0 (ArgMem encrypted_data_buffer);
   clSetKernelArg 1 (ArgMem decrypted_data_buffer);
   clSetKernelArg 2 (ArgMem keys_buffer);
   clSetKernelArg 3 (ArgInt (Z.of_nat (length key_str)));
   clSetKernelArg 4 (ArgInt (int_of_size_t data_length));
   clEnqueueNDRangeKernel data_length;
   clEnqueueReadBuffer decrypted_data_buffer data_length].

(** The machine once lines 63-122 have run without a failure. *)
Definition ready (encrypted_data : list Z) : machine :=
  Machine (setup_calls encrypted_data) []
    (replicate (length encrypted_data) 0) (replicate (length encrypted_data) 0).

(** The two lines that end a search. *)
Definition found_lines (key_str : list Z) (elapsed : Z) : list (stream * list item) :=
  [(Cout, [Text "Decryption successful, key found: "; Str key_str]);
   (Cout, [Text "Time taken: "; Seconds elapsed; Text " seconds"])].

Definition no_key_lines (elapsed : Z) : list (stream * list item) :=
  [(Cout, [Text "No valid key found"]);
   (Cout, [Text "Time taken: "; Seconds elapsed; Text " seconds"])].

Section Search.

Local Open Scope search_scope.

(** The status the backend returns for a call, given the calls before it. *)
Variable status : list cl_call -> cl_call -> Z.
(** The reading of [high_resolution_clock::now()], given the calls made. *)
Variable now : list cl_call -> Z.

Definition call (c : cl_call) : M Z :=
  fun m => (Go (status (trace m) c), set_trace (trace m ++ [c]) m).

(** [if (err != CL_SUCCESS) { std::cerr << text << err; throw what; }] *)
Definition check (err : Z) (text what : string) : M unit :=
  if err =? CL_SUCCESS then ret tt
  else run say Cerr [Text text; Int err] in leave (Throw what).

(** Lines 132-171: the body of the [do ... while] loop for one [key_str]. *)
Definition attempt (encrypted_data : list Z) (encrypted_data_buffer
    decrypted_data_buffer : nat) (start_time : Z) (key_length : Z)
    (key_str : list Z) : M unit :=
  let data_length := Z.of_nat (length encrypted_data) in
  let keys := map to_uchar key_str in
  let* keys_buffer := ask (fun m => length (trace m)) in
  let* err := call (clCreateBuffer (Z.lor CL_MEM_READ_ONLY CL_MEM_COPY_HOST_PTR)
                                   (Z.of_nat (length keys)) (Some keys)) in
  run check err "Failed to create keys buffer. Error code: "
                "OpenCL buffer creation error" in
  let* e0 := call (clSetKernelArg 0 (ArgMem encrypted_data_buffer)) in
  let* e1 := call (clSetKernelArg 1 (ArgMem decrypted_data_buffer)) in
  let* e2 := call (clSetKernelArg 2 (ArgMem keys_buffer)) in
  let* e3 := call (clSetKernelArg 3 (ArgInt key_length)) in
  let* e4 := call (clSetKernelArg 4 (ArgInt (int_of_size_t data_length))) in
  let err := Z.lor (Z.lor (Z.lor (Z.lor e0 e1) e2) e3) e4 in
  run check err "Failed to set OpenCL kernel arguments. Error code: "
                "OpenCL kernel argument setting error" in
  let global_work_size := data_length in
  let* err := call (clEnqueueNDRangeKernel global_work_size) in
  run check err "Failed to enqueue OpenCL kernel. Error code: "
                "OpenCL kernel enqueue error" in
  run modify (fun m =>
        set_device_out
          (Kernel.run_kernel encrypted_data (device_out m) keys key_length
             (int_of_size_t data_length) global_work_size) m) in
  let* err := call (clEnqueueReadBuffer decrypted_data_buffer data_length) in
  run check err "Failed to read buffer from OpenCL kernel. Error code: "
                "OpenCL buffer read error" in
  run modify (fun m => set_decrypted_data (device_out m) m) in
  let* decrypted := ask decrypted_data in
  if is_valid_plaintext decrypted then
    let* end_time := ask (fun m => now (trace m)) in
    run say Cout [Text "Decryption successful, key found: "; Str key_str] in
    run say Cout [Text "Time taken: "; Seconds (end_time - start_time);
                  Text " seconds"] in
    leave (Return decrypted)
  else
    let* _ := call (clReleaseMemObject keys_buffer) in
    ret tt.

(** Lines 131-172: [do attempt while (std::next_permutation(key_str))]. *)
Fixpoint key_loop (fuel : nat) (encrypted_data : list Z)
    (encrypted_data_buffer decrypted_data_buffer : nat) (start_time : Z)
    (key_length : Z) (key_str : list Z) : M unit :=
  match fuel with
  | O => leave OutOfFuel
  | S fuel' =>
      run attempt encrypted_data encrypted_data_buffer decrypted_data_buffer
            start_time key_length key_str in
      let '(more, key_str') := Std.next_permutation key_str in
      if more then
        key_loop fuel' encrypted_data encrypted_data_buffer
          decrypted_data_buffer start_time key_length key_str'
      else ret tt
  end.

(** Lines 127-173: the [for] loop over the key lengths, [count] rounds from
    [key_length] on. *)
Fixpoint length_loop (count : nat) (encrypted_data charset : list Z)
    (encrypted_data_buffer decrypted_data_buffer : nat) (start_time : Z)
    (key_length : Z) : M unit :=
  match count with
  | O => ret tt
  | S count' =>
      let key_str := replicate (Z.to_nat key_length) (charset_front charset) in
      run key_loop (fact (Z.to_nat key_length)) encrypted_data
            encrypted_data_buffer decrypted_data_buffer start_time key_length
            key_str in
      length_loop count' encrypted_data charset encrypted_data_buffer
        decrypted_data_buffer start_time (key_length + 1)
  end.

(** Lines 63-122: platform, device, context, queue, program, kernel and the
    two data buffers.  Answers the names of the two buffers. *)
Definition initialise (encrypted_data : list Z) : M (nat * nat) :=
  let* err := call clGetPlatformIDs in
  run check err "Failed to get OpenCL platform IDs. Error code: "
                "OpenCL initialization error" in
  let* err := call clGetDeviceIDs in
  run check err "Failed to get OpenCL device IDs. Error code: "
                "OpenCL initialization error" in
  let* err := call clCreateContext in
  run check err "Failed to create OpenCL context. Error code: "
                "OpenCL context creation error" in
  let* err := call clCreateCommandQueueWithProperties in
  run check err "Failed to create OpenCL command queue. Error code: "
                "OpenCL command queue creation error" in
  let* err := call clCreateProgramWithSource in
  run check err "Failed to create OpenCL program. Error code: "
                "OpenCL program creation error" in
  let* err := call clBuildProgram in
  run (if err =? CL_SUCCESS then ret tt
       else
         let* _ := call clGetProgramBuildInfo in
         let* _ := call clGetProgramBuildInfo in
         run say Cerr [Text "Build log:"; BuildLog] in
         leave (Throw "OpenCL program build error")) in
  let* err := call clCreateKernel in
  run check err "Failed to create OpenCL kernel. Error code: "
                "OpenCL kernel creation error" in
  let data_length := Z.of_nat (length encrypted_data) in
  run modify (set_decrypted_data (replicate (length encrypted_data) 0)) in
  let* encrypted_data_buffer := ask (fun m => length (trace m)) in
  let* err := call (clCreateBuffer (Z.lor CL_MEM_READ_ONLY CL_MEM_COPY_HOST_PTR)
                                   data_length (Some encrypted_data)) in
  run check err "Failed to create encrypted data buffer. Error code: "
                "OpenCL buffer creation error" in
  let* decrypted_data_buffer := ask (fun m => length (trace m)) in
  let* err := call (clCreateBuffer CL_MEM_WRITE_ONLY data_length None) in
  run check err "Failed to create decrypted data buffer. Error code: "
                "OpenCL buffer creation error" in
  run modify (set_device_out (replicate (length encrypted_data) 0)) in
  ret (encrypted_data_buffer, decrypted_data_buffer).

(** Lines 51-181, as a statement that always leaves. *)
Definition body (encrypted_data charset : list Z) (max_key_length : Z)
  : M Empty_set :=
  let* bufs := initialise encrypted_data in
  let* start_time := ask (fun m => now (trace m)) in
  run length_loop (Z.to_nat max_key_length) encrypted_data charset
        (fst bufs) (snd bufs) start_time 1 in
  let* end_time := ask (fun m => now (trace m)) in
  run say Cout [Text "No valid key found"] in
  run say Cout [Text "Time taken: "; Seconds (end_time - start_time);
                Text " seconds"] in
  leave (Return []).

Definition power_on : machine := Machine [] [] [] [].

(** The call [brute_force_rc4_gpu(encrypted_data, charset, max_key_length)]:
    how it ends, and what it has done to the backend and the console. *)
Definition brute_force_rc4_gpu (encrypted_data charset : list Z)
    (max_key_length : Z) : result * machine :=
  match body encrypted_data charset max_key_length power_on with
  | (Stop r, m) => (r, m)
  | (Go e, _) => match e with end
  end.

(** *** Failures in a trace *)

(** Every tested call of the trace has returned [CL_SUCCESS]. *)
Definition clean (t : list cl_call) : Prop :=
  forall i c, t !! i = Some c -> checked c = true ->
              status (take i t) c = CL_SUCCESS.

(** The trace of a run that call [c] has ended: [c] is the first tested call
    to fail and only what [follows] it comes after. *)
Definition aborted (t : list cl_call) (c : cl_call) : Prop :=
  exists p rest,
    t = p ++ c :: rest /\ clean p /\ checked c = true /\
    status p c <> CL_SUCCESS /\ Forall (fun c' => follows c c' = true) rest.

(** What holds when a statement is left: falling through or returning, no
    tested call has failed; throwing, a failed call explains the exception
    and the last line written is on [std::cerr]. *)
Definition post {A : Type} (out : step A * machine) : Prop :=
  match out with
  | (Stop (Throw what), m) =>
      (exists c, aborted (trace m) c /\ what = diagnosis c) /\
      exists l, last (console m) = Some (Cerr, l)
  | (_, m) => clean (trace m)
  end.

(** A statement that keeps [post] from every machine without a failure. *)
Definition sound {A : Type} (c : M A) : Prop :=
  forall m, clean (trace m) -> post (c m).

(** The loop body run on a list of key strings, one after the other. *)
Fixpoint attempts (encrypted_data : list Z) (encrypted_data_buffer
    decrypted_data_buffer : nat) (start_time : Z) (keys : list (list Z))
  : M unit :=
  match keys with
  | [] => ret tt
  | key_str :: rest =>
      run attempt encrypted_data encrypted_data_buffer decrypted_data_buffer
            start_time (Z.of_nat (length key_str)) key_str in
      attempts encrypted_data encrypted_data_buffer decrypted_data_buffer
        start_time rest
  end.

End Search.
End Search.

(** A statement that, when it leaves the function, leaves it with a result
    in [P]. *)
Definition exits_with {A : Type} (P : result -> Prop) (c : M A) : Prop :=
  forall m, match fst (c m) with Stop r => P r | Go _ => True end.

(** How a call of [brute_force_rc4_gpu] can end: with an exception, with
    the empty vector, or with a vector the validator accepts. *)
Definition well_ended (r : result) : Prop :=
  match r with
  | Throw _ => True
  | Return d => d = [] \/ is_valid_plaintext d = true
  | OutOfFuel => False
  end.

(** Every key buffer of the trace has been released.  The calls 0..8 are
    the set-up; a buffer created later from host data is a key buffer. *)
Definition key_buffers_released (t : list cl_call) : Prop :=
  forall i flags size host,
    (length (Search.setup_calls []) <= i)%nat ->
    t !! i = Some (clCreateBuffer flags size (Some host)) ->
    Search.released t i = true.

(** ** [main] *)

Module Main.

(** The characters of a string literal, as [char] values. *)
Definition chars (s : string) : list Z :=
  map (fun a => Z.of_N (Ascii.N_of_ascii a)) (list_ascii_of_string s).

(** Lines 195-196. *)
Definition charset : list Z :=
  chars "abcdefghijklmnopqrstuvwxyzABCDEFGHIJKLMNOPQRSTUVWXYZ0123456789".
Definition max_key_length : Z := 5.

(** What [main] meets in the working directory: the bytes of
    [encrypted_file.bin] when it can be opened for reading, and whether
    [decrypted_file.bin] can be opened for writing. *)
Record files : Type := Files {
  encrypted_file : option (list Z);
  output_opens : bool;
}.

(** How [main] ends: the value it returns ([None] only if the search had
    stopped for want of fuel), the lines written, the bytes written to
    [decrypted_file.bin] if it was written, and the OpenCL calls made. *)
Record outcome : Type := Outcome {
  exit_code : option Z;
  lines : list (stream * list item);
  written : option (list Z);
  calls : list cl_call;
}.

(** Lines 212-215: the handler of [std::exception]. *)
Definition caught (what : string) (said : list (stream * list item))
    (t : list cl_call) : outcome :=
  Outcome (Some 1) (said ++ [(Cerr, [Text "Error: "; Text what])]) None t.

(** Lines 183-218. *)
Definition main (status : list cl_call -> cl_call -> Z)
    (now : list cl_call -> Z) (fs : files) : outcome :=
  match encrypted_file fs with
  | None =>
      caught "File open error" [(Cerr, [Text "Failed to open input file"])] []
  | Some encrypted_data =>
      match Search.brute_force_rc4_gpu status now encrypted_data charset
              max_key_length with
      | (Throw what, m) => caught what (console m) (trace m)
      | (OutOfFuel, m) => Outcome None (console m) None (trace m)
      | (Return decrypted_data, m) =>
          match decrypted_data with
          | [] => Outcome (Some 0) (console m) None (trace m)
          | _ :: _ =>
              if output_opens fs then
                Outcome (Some 0)
                  (console m
                   ++ [(Cout, [Text "Decryption successful, output written to decrypted_file.bin"])])
                  (Some decrypted_data) (trace m)
              else
                caught "File open error"
                  (console m ++ [(Cerr, [Text "Failed to open output file"])])
                  (trace m)
          end
      end
  end.

End Main.

(** * Proofs

    First the loops and the table of the kernel, then one launch, the
    enumeration, the search on a backend that never fails and on one that
    may, and last the properties of the design description. *)

(** ** Loops *)
Section Loops.
Context {St : Type}.
Implicit Types (body : Z -> St -> St) (st : St).

Lemma for_range_empty lo hi body st : hi <= lo -> for_range lo hi body st = st.
Proof. intros H. unfold for_range. by rewrite seqZ_nil by lia. Qed.

Lemma for_range_succ lo hi body st :
  lo <= hi -> for_range lo (hi + 1) body st = body hi (for_range lo hi body st).
Proof.
  intros H. unfold for_range.
  replace (hi + 1 - lo) with ((hi - lo) + 1) by lia.
  rewrite seqZ_app by lia. rewrite foldl_app.
  rewrite (seqZ_cons _ 1) by lia. rewrite (seqZ_nil _ (Z.pred 1)) by lia. simpl.
  by replace (lo + (hi - lo)) with hi by lia.
Qed.

Lemma for_range_nat lo (n : nat) body st :
  for_range lo (lo + Z.of_nat (S n)) body st
  = body (lo + Z.of_nat n) (for_range lo (lo + Z.of_nat n) body st).
Proof.
  replace (lo + Z.of_nat (S n)) with (lo + Z.of_nat n + 1) by lia.
  apply for_range_succ. lia.
Qed.

Lemma for_range_invariant (I : St -> Prop) lo hi body st :
  I st ->
  (forall k s, lo <= k < hi -> I s -> I (body k s)) ->
  I (for_range lo hi body st).
Proof.
  intros H0 Hstep.
  destruct (Z.le_gt_cases hi lo) as [Hle|Hlt].
  { by rewrite for_range_empty. }
  replace hi with (lo + Z.of_nat (Z.to_nat (hi - lo))) in * by lia.
  generalize dependent (Z.to_nat (hi - lo)). intros n.
  induction n as [|n IH]; intros Hstep Hlt.
  - lia.
  - rewrite for_range_nat. apply Hstep; [lia|].
    destruct n as [|n'].
    + rewrite for_range_empty by lia. done.
    + apply IH; [|lia]. intros k s Hk. apply Hstep. lia.
Qed.
End Loops.

(** ** The table of the kernel *)


Lemma init_table_identity : Kernel.init_table = Kernel.identity.
Proof. vm_compute. reflexivity. Qed.

Lemma permutation_length (Sb : list Z) : Sb ≡ₚ Kernel.identity -> length Sb = 256%nat.
Proof. intros H. by rewrite H. Qed.

Lemma permutation_uchar (Sb : list Z) : Sb ≡ₚ Kernel.identity -> Forall is_uchar Sb.
Proof.
  intros H. rewrite H. apply Forall_seqZ. unfold is_uchar. lia.
Qed.

Lemma rd_uchar (a : list Z) (k : Z) : Forall is_uchar a -> is_uchar (rd a k).
Proof.
  intros H. unfold rd. rewrite list_lookup_total_alt.
  destruct (a !! Z.to_nat k) as [x|] eqn:E; simpl.
  - eapply Forall_lookup_1; eauto.
  - unfold is_uchar; simpl. lia.
Qed.

Lemma rd_lookup (a : list Z) (k : Z) :
  (Z.to_nat k < length a)%nat -> a !! Z.to_nat k = Some (rd a k).
Proof.
  intros H. unfold rd. by apply list_lookup_lookup_total_lt.
Qed.

Lemma rem_uchar (x : Z) : 0 <= x -> is_uchar (Z.rem x 256).
Proof. intros H. unfold is_uchar. apply Z.rem_bound_pos; lia. Qed.

(** The three assignments [temp = S[a]; S[a] = S[b]; S[b] = temp]. *)
Lemma swap_permutation (Sb : list Z) (a b : Z) :
  is_uchar a -> is_uchar b -> Sb ≡ₚ Kernel.identity ->
  wr (wr Sb a (rd Sb b)) b (rd Sb a) ≡ₚ Kernel.identity.
Proof.
  intros Ha Hb HS. pose proof (permutation_length _ HS) as Hlen.
  unfold is_uchar in *. etrans; [|exact HS]. unfold wr.
  apply Permutation_insert_swap; apply rd_lookup; lia.
Qed.

Lemma ksa_step_valid keys key_length k j Sb :
  Forall is_uchar keys -> is_uchar k ->
  is_uchar j /\ Sb ≡ₚ Kernel.identity ->
  is_uchar (fst (Kernel.ksa_step keys key_length k (j, Sb))) /\
  snd (Kernel.ksa_step keys key_length k (j, Sb)) ≡ₚ Kernel.identity.
Proof.
  intros Hkeys Hk [Hj HS]. simpl.
  pose proof (rd_uchar Sb k (permutation_uchar _ HS)) as H1.
  pose proof (rd_uchar keys (Z.rem k key_length) Hkeys) as H2.
  assert (is_uchar (Z.rem (j + rd Sb k + rd keys (Z.rem k key_length)) 256)) as Hj'.
  { apply rem_uchar. unfold is_uchar in *. lia. }
  split; [done|]. by apply swap_permutation.
Qed.

Lemma ksa_permutation keys key_length :
  Forall is_uchar keys -> Kernel.ksa keys key_length ≡ₚ Kernel.identity.
Proof.
  intros Hkeys. unfold Kernel.ksa.
  apply (for_range_invariant
           (fun st => is_uchar (fst st) /\ snd st ≡ₚ Kernel.identity)).
  - simpl. split; [unfold is_uchar; lia|]. by rewrite init_table_identity.
  - intros k [j Sb] Hk H. apply ksa_step_valid; [done| |done].
    unfold is_uchar. lia.
Qed.

Lemma prga_step_valid st : Kernel.valid_state st -> Kernel.valid_state (Kernel.prga_step st).
Proof.
  destruct st as [[i j] Sb]. intros (Hi & Hj & HS). simpl.
  assert (is_uchar (Z.rem (i + 1) 256)) as Hi'.
  { apply rem_uchar. unfold is_uchar in *. lia. }
  pose proof (rd_uchar Sb (Z.rem (i + 1) 256) (permutation_uchar _ HS)) as H1.
  assert (is_uchar (Z.rem (j + rd Sb (Z.rem (i + 1) 256)) 256)) as Hj'.
  { apply rem_uchar. unfold is_uchar in *. lia. }
  repeat split; try apply Hi'; try apply Hj'. by apply swap_permutation.
Qed.

Lemma advance_valid keys key_length gid :
  Forall is_uchar keys -> Kernel.valid_state (Kernel.advance keys key_length gid).
Proof.
  intros Hkeys. unfold Kernel.advance. apply for_range_invariant.
  - simpl. repeat split; try lia. by apply ksa_permutation.
  - intros k s _. apply prga_step_valid.
Qed.

Lemma emit_uchar st : Kernel.valid_state st -> is_uchar (Kernel.emit st).
Proof.
  destruct st as [[i j] Sb]. intros (Hi & Hj & HS). simpl.
  apply rd_uchar. by apply permutation_uchar.
Qed.

(** The serial generator, byte by byte. *)
Lemma generate_lookup (p n : nat) st :
  (p < n)%nat ->
  Reference.generate n st !! p
  = Some (Kernel.emit (Nat.iter (S p) Kernel.prga_step st)).
Proof.
  revert n st. induction p as [|p IH]; intros [|n] st Hp; try lia; simpl.
  - done.
  - rewrite IH by lia. f_equal. f_equal. simpl.
    clear. induction p as [|p IHp]; simpl; [done|]. by rewrite IHp.
Qed.

Lemma advance_iter keys key_length (n : nat) :
  Kernel.advance keys key_length (Z.of_nat n)
  = Nat.iter n Kernel.prga_step (0, 0, Kernel.ksa keys key_length).
Proof.
  unfold Kernel.advance. induction n as [|n IH].
  - by rewrite for_range_empty.
  - pose proof (for_range_nat 0 n (fun _ : Z => Kernel.prga_step)
                  (0, 0, Kernel.ksa keys key_length)) as H.
    rewrite !Z.add_0_l in H. rewrite H, IH. done.
Qed.

(** The kernel is one advance short of the serial generator: what it emits
    at position [p + 1] is the generator's byte [p]. *)
Lemma kernel_lags_reference keys key_length (p n : nat) :
  (p < n)%nat ->
  Reference.keystream keys key_length n !! p
  = Some (Kernel.keystream_byte keys key_length (Z.of_nat p + 1)).
Proof.
  intros Hp. unfold Reference.keystream, Kernel.keystream_byte.
  rewrite generate_lookup by done.
  replace (Z.of_nat p + 1) with (Z.of_nat (S p)) by lia.
  by rewrite advance_iter.
Qed.

(** ** One launch of the kernel *)

Lemma int_of_size_t_small (x : Z) : 0 <= x < 2 ^ 31 -> int_of_size_t x = x.
Proof.
  intros H. unfold int_of_size_t. rewrite Z.mod_small by lia.
  destruct (x <? 2 ^ 31) eqn:E; [done|]. apply Z.ltb_ge in E. lia.
Qed.

Lemma rc4_decrypt_length enc out keys key_length data_length gid :
  length (Kernel.rc4_decrypt enc out keys key_length data_length gid) = length out.
Proof.
  unfold Kernel.rc4_decrypt, wr. destruct (gid <? data_length); [|done].
  by rewrite length_insert.
Qed.

Lemma run_kernel_length enc out keys key_length data_length work :
  length (Kernel.run_kernel enc out keys key_length data_length work) = length out.
Proof.
  unfold Kernel.run_kernel.
  apply (for_range_invariant (fun o => length o = length out)); [done|].
  intros k s _ Hs. by rewrite rc4_decrypt_length.
Qed.

Lemma run_kernel_prefix enc out keys key_length (n : nat) (done_ : nat) (p : nat) :
  Z.of_nat n < 2 ^ 31 -> (done_ <= n)%nat -> length out = n ->
  Kernel.run_kernel enc out keys key_length (int_of_size_t (Z.of_nat n))
    (Z.of_nat done_) !! p
  = if decide (p < done_)%nat then Some (Kernel.plain_byte enc keys key_length p)
    else out !! p.
Proof.
  intros Hn Hd Hlen. unfold Kernel.run_kernel.
  induction done_ as [|d IH].
  - rewrite for_range_empty by lia. by case_decide; [lia|].
  - pose proof (for_range_nat 0 d
      (fun id o => Kernel.rc4_decrypt enc o keys key_length
                     (int_of_size_t (Z.of_nat n)) (int_of_size_t id)) out) as E.
    rewrite !Z.add_0_l in E. rewrite E. clear E.
    set (o := for_range 0 (Z.of_nat d) _ out) in *.
    assert (length o = n) as Hlo.
    { subst o. rewrite <- Hlen. apply (run_kernel_length enc out keys key_length). }
    rewrite !int_of_size_t_small by lia.
    unfold Kernel.rc4_decrypt.
    destruct (Z.of_nat d <? Z.of_nat n) eqn:Hlt; [|apply Z.ltb_ge in Hlt; lia].
    unfold wr. rewrite Nat2Z.id. rewrite list_lookup_insert.
    rewrite IH by lia.
    repeat case_decide; try lia; try done.
    destruct_and!; subst. done.
Qed.

Lemma run_kernel_lookup enc out keys key_length (n p : nat) :
  Z.of_nat n < 2 ^ 31 -> length out = n -> (p < n)%nat ->
  Kernel.run_kernel enc out keys key_length (int_of_size_t (Z.of_nat n))
    (Z.of_nat n) !! p
  = Some (Kernel.plain_byte enc keys key_length p).
Proof.
  intros Hn Hlen Hp. rewrite run_kernel_prefix by (done || lia).
  by case_decide; [|lia].
Qed.

(** A launch overwrites the whole output buffer. *)
Lemma run_kernel_overwrites enc out out' keys key_length (n : nat) :
  Z.of_nat n < 2 ^ 31 -> length out = n -> length out' = n ->
  Kernel.run_kernel enc out keys key_length (int_of_size_t (Z.of_nat n)) (Z.of_nat n)
  = Kernel.run_kernel enc out' keys key_length (int_of_size_t (Z.of_nat n)) (Z.of_nat n).
Proof.
  intros Hn H1 H2. apply list_eq. intros p.
  destruct (decide (p < n)%nat) as [Hp|Hp].
  - by rewrite !run_kernel_lookup.
  - rewrite !lookup_ge_None_2; [done| |]; rewrite run_kernel_length; lia.
Qed.

Lemma xor_twice (p k : Z) :
  is_uchar p -> to_uchar (Z.lxor (to_uchar (Z.lxor p k)) k) = p.
Proof.
  intros Hp. unfold to_uchar, is_uchar in *. change 256 with (2 ^ 8).
  apply Z.bits_inj'. intros n Hn.
  destruct (Z.lt_ge_cases n 8) as [Hlo|Hhi].
  - rewrite Z.mod_pow2_bits_low by lia. rewrite Z.lxor_spec.
    rewrite Z.mod_pow2_bits_low by lia. rewrite Z.lxor_spec.
    by destruct (Z.testbit p n), (Z.testbit k n).
  - rewrite Z.mod_pow2_bits_high by lia.
    rewrite <- (Z.mod_small p (2 ^ 8)) by lia.
    by rewrite Z.mod_pow2_bits_high by lia.
Qed.

(** ** What the loops enumerate *)

Lemma rev_replicate (n : nat) (c : Z) : rev (replicate n c) = replicate n c.
Proof.
  induction n as [|n IH]; simpl; [done|]. rewrite IH.
  clear IH. induction n as [|n IH]; simpl; [done|]. by rewrite IH.
Qed.

Lemma find_pivot_replicate (n : nat) (c : Z) (tail : list Z) :
  Std.find_pivot (replicate n c) c tail = None.
Proof.
  revert tail. induction n as [|n IH]; intros tail; simpl; [done|].
  rewrite Z.ltb_irrefl. apply IH.
Qed.

(** A string of equal characters has no next permutation. *)
Lemma next_permutation_replicate (n : nat) (c : Z) :
  Std.next_permutation (replicate n c) = (false, replicate n c).
Proof.
  unfold Std.next_permutation. rewrite rev_replicate.
  destruct n as [|n]; simpl; [done|]. by rewrite find_pivot_replicate.
Qed.

Lemma candidates_of_length_single (charset : list Z) (key_length : Z) :
  Search.candidates_of_length charset key_length
  = [replicate (Z.to_nat key_length) (Search.charset_front charset)].
Proof.
  unfold Search.candidates_of_length.
  destruct (fact (Z.to_nat key_length)) as [|f] eqn:E.
  { pose proof (fact_neq_0 (Z.to_nat key_length)). lia. }
  simpl. by rewrite next_permutation_replicate.
Qed.

Lemma candidates_cons (charset : list Z) (lo : Z) (n : nat) :
  flat_map (Search.candidates_of_length charset) (seqZ lo (Z.of_nat (S n)))
  = replicate (Z.to_nat lo) (Search.charset_front charset)
    :: flat_map (Search.candidates_of_length charset) (seqZ (lo + 1) (Z.of_nat n)).
Proof.
  rewrite seqZ_cons by lia. simpl. rewrite candidates_of_length_single. simpl.
  do 3 f_equal; lia.
Qed.

(** Every key the loops visit is [charset[0]] repeated, and the key
    schedule reads the key cyclically: all of them schedule the same table
    and decrypt the ciphertext to the same bytes. *)
Lemma for_range_ext {St : Type} lo hi (f g : Z -> St -> St) (st : St) :
  (forall k s, lo <= k < hi -> f k s = g k s) ->
  for_range lo hi f st = for_range lo hi g st.
Proof.
  intros H. unfold for_range.
  assert (Forall (fun k => lo <= k < hi) (seqZ lo (hi - lo))) as HF.
  { apply Forall_seqZ. lia. }
  revert st. induction HF as [|k l Hk _ IH]; intros st; simpl; [done|].
  rewrite H by done. apply IH.
Qed.

Lemma ksa_replicate (n : nat) (c : Z) :
  (1 <= n)%nat -> Kernel.ksa (replicate n c) (Z.of_nat n) = Kernel.ksa [c] 1.
Proof.
  intros Hn. unfold Kernel.ksa. f_equal. apply for_range_ext.
  intros k [j Sb] Hk. unfold Kernel.ksa_step.
  assert (rd (replicate n c) (Z.rem k (Z.of_nat n)) = c) as ->.
  { unfold rd. apply lookup_total_replicate_2.
    pose proof (Z.rem_bound_pos k (Z.of_nat n)). lia. }
  by rewrite Z.rem_1_r.
Qed.

Lemma map_replicate {A B : Type} (f : A -> B) (n : nat) (x : A) :
  map f (replicate n x) = replicate n (f x).
Proof. induction n as [|n IH]; simpl; [done|]. by rewrite IH. Qed.

Lemma dispatch_replicate (ct : list Z) (n : nat) (c : Z) :
  (1 <= n)%nat -> Search.dispatch ct (replicate n c) = Search.dispatch ct [c].
Proof.
  intros Hn. unfold Search.dispatch, Kernel.run_kernel.
  apply for_range_ext. intros id out _.
  unfold Kernel.rc4_decrypt, Kernel.keystream_byte, Kernel.advance.
  rewrite map_replicate, length_replicate. simpl.
  by rewrite ksa_replicate.
Qed.

Lemma candidates_decrypt_alike (ct charset : list Z) (max_key_length : Z)
    (key : list Z) :
  In key (Search.candidates charset max_key_length) ->
  Search.dispatch ct key = Search.dispatch ct [Search.charset_front charset].
Proof.
  unfold Search.candidates. intros (L & HL & Hkey)%in_flat_map.
  apply list_elem_of_In, elem_of_seqZ in HL.
  rewrite candidates_of_length_single in Hkey.
  destruct Hkey as [<-|[]]. apply dispatch_replicate. lia.
Qed.

(** ** The loops, as a run over the enumeration *)

Section Loops_as_attempts.
Variable status : list cl_call -> cl_call -> Z.
Variable now : list cl_call -> Z.
Variables (ct : list Z) (eb db : nat) (t0 : Z).

Lemma key_loop_single (n : nat) (c : Z) (m : machine) :
  Search.key_loop status now (fact n) ct eb db t0 (Z.of_nat n) (replicate n c) m
  = Search.attempts status now ct eb db t0 [replicate n c] m.
Proof.
  destruct (fact n) as [|f] eqn:E.
  { pose proof (fact_neq_0 n). lia. }
  simpl. rewrite next_permutation_replicate. by rewrite length_replicate.
Qed.

Lemma length_loop_attempts (charset : list Z) (count : nat) (lo : Z) (m : machine) :
  0 <= lo ->
  Search.length_loop status now count ct charset eb db t0 lo m
  = Search.attempts status now ct eb db t0
      (flat_map (Search.candidates_of_length charset) (seqZ lo (Z.of_nat count))) m.
Proof.
  revert lo m. induction count as [|count IH]; intros lo m Hlo.
  - by rewrite seqZ_nil by lia.
  - rewrite candidates_cons.
    cbn [Search.length_loop Search.attempts]. unfold bind.
    pose proof (key_loop_single (Z.to_nat lo) (Search.charset_front charset) m) as E.
    rewrite Z2Nat.id in E by lia. rewrite E. clear E.
    cbn [Search.attempts]. unfold bind, ret. rewrite length_replicate.
    rewrite Z2Nat.id by lia.
    destruct (Search.attempt _ _ _ _ _ _ _ _ m) as [[[]|r] m']; [|done].
    apply IH. lia.
Qed.
End Loops_as_attempts.

(** ** The search on a backend that never fails *)

Lemma dispatch_length (ct key : list Z) :
  length (Search.dispatch ct key) = length ct.
Proof.
  unfold Search.dispatch. by rewrite run_kernel_length, length_replicate.
Qed.

Section Working_backend.
Variable status : list cl_call -> cl_call -> Z.
Variable now : list cl_call -> Z.
Hypothesis Hok : forall h c, status h c = CL_SUCCESS.
Variable ct : list Z.
Hypothesis Hsize : Z.of_nat (length ct) < 2 ^ 31.

Lemma initialise_ok :
  Search.initialise status ct Search.power_on = (Go (7%nat, 8%nat), Search.ready ct).
Proof.
  cbv [Search.initialise bind Search.call Search.check ask modify say leave ret
       set_trace set_console set_device_out set_decrypted_data
       trace console device_out decrypted_data Search.power_on].
  repeat (rewrite Hok; cbv [CL_SUCCESS Z.eqb]).
  reflexivity.
Qed.

Variables (eb db : nat) (t0 : Z).

Lemma attempt_ok (key : list Z) (m : machine) :
  length (device_out m) = length ct ->
  Search.attempt status now ct eb db t0 (Z.of_nat (length key)) key m
  = let d := Search.dispatch ct key in
    let t := trace m ++ Search.attempt_calls ct eb db (length (trace m)) key in
    if is_valid_plaintext d
    then (Stop (Return d),
          Machine t (console m ++ Search.found_lines key (now t - t0)) d d)
    else (Go tt,
          Machine (t ++ [clReleaseMemObject (length (trace m))]) (console m) d d).
Proof.
  intros Hlen.
  cbv [Search.attempt bind Search.call Search.check ask modify say leave ret
       set_trace set_console set_device_out set_decrypted_data
       trace console device_out decrypted_data].
  destruct m as [t c dev host]. simpl in Hlen.
  repeat (rewrite Hok; cbv [CL_SUCCESS Z.eqb];
          try change (Z.lor (Z.lor (Z.lor (Z.lor 0 0) 0) 0) 0) with 0;
          cbv [Z.eqb]).
  rewrite (run_kernel_overwrites ct dev (replicate (length ct) 0) _ _ (length ct))
    by (done || by rewrite length_replicate).
  fold (Search.dispatch ct key).
  cbv zeta. unfold Search.attempt_calls, Search.found_lines.
  destruct (is_valid_plaintext (Search.dispatch ct key));
    repeat (rewrite ?Hok; cbv [CL_SUCCESS Z.eqb]);
    repeat rewrite <- app_assoc; reflexivity.
Qed.

Lemma attempts_app (a b : list (list Z)) (m : machine) :
  Search.attempts status now ct eb db t0 (a ++ b) m
  = bind (Search.attempts status now ct eb db t0 a)
         (fun _ => Search.attempts status now ct eb db t0 b) m.
Proof.
  revert m. induction a as [|k a IH]; intros m; [done|].
  simpl. unfold bind in *.
  destruct (Search.attempt _ _ _ _ _ _ _ _ m) as [[[]|r] m']; [|done].
  apply IH.
Qed.

(** Rejected candidates: each costs one upload, one launch, one read-back
    and one release, and the loop goes on. *)
Lemma attempts_rejected (keys : list (list Z)) (m : machine) :
  length (device_out m) = length ct ->
  Forall (fun k => is_valid_plaintext (Search.dispatch ct k) = false) keys ->
  exists m',
    Search.attempts status now ct eb db t0 keys m = (Go tt, m') /\
    length (device_out m') = length ct /\
    console m' = console m /\
    Search.uploads (trace m')
    = Search.uploads (trace m) ++ map (map to_uchar) keys /\
    Search.launches (trace m')
    = Search.launches (trace m) ++ replicate (length keys) (Z.of_nat (length ct)) /\
    Search.read_backs (trace m')
    = Search.read_backs (trace m) ++ replicate (length keys) db.
Proof.
  revert m. induction keys as [|k keys IH]; intros m Hlen Hrej.
  - exists m. simpl. by rewrite !app_nil_r.
  - apply Forall_cons in Hrej as [Hk Hrej].
    cbn [Search.attempts]. unfold bind. rewrite attempt_ok by done.
    cbv zeta. rewrite Hk.
    match goal with
    | |- context [Search.attempts _ _ _ _ _ _ keys ?m1] =>
        destruct (IH m1) as (m' & E & Hl & Hc & Hu & Hn & Hr);
        [simpl; apply dispatch_length | exact Hrej |]
    end.
    exists m'. rewrite E. split; [done|]. split; [done|]. split; [done|].
    rewrite Hu, Hn, Hr. simpl.
    unfold Search.uploads, Search.launches, Search.read_backs.
    rewrite !omap_app. simpl. by rewrite <- !app_assoc.
Qed.

(** The first accepted candidate ends the run. *)
Lemma attempts_found (pre : list (list Z)) (key : list Z)
    (post : list (list Z)) (m : machine) :
  length (device_out m) = length ct ->
  Forall (fun k => is_valid_plaintext (Search.dispatch ct k) = false) pre ->
  is_valid_plaintext (Search.dispatch ct key) = true ->
  exists m',
    Search.attempts status now ct eb db t0 (pre ++ key :: post) m
    = (Stop (Return (Search.dispatch ct key)), m') /\
    console m' = console m ++ Search.found_lines key (now (trace m') - t0) /\
    Search.uploads (trace m')
    = Search.uploads (trace m) ++ map (map to_uchar) (pre ++ [key]) /\
    Search.launches (trace m')
    = Search.launches (trace m)
      ++ replicate (length (pre ++ [key])) (Z.of_nat (length ct)) /\
    Search.read_backs (trace m')
    = Search.read_backs (trace m) ++ replicate (length (pre ++ [key])) db.
Proof.
  intros Hlen Hrej Hacc.
  destruct (attempts_rejected pre m Hlen Hrej) as (m1 & E & Hl & Hc & Hu & Hn & Hr).
  rewrite attempts_app. unfold bind at 1. rewrite E.
  cbn [Search.attempts]. unfold bind. rewrite attempt_ok by done.
  cbv zeta. rewrite Hacc.
  eexists. split; [reflexivity|]. simpl. rewrite Hc. split; [done|].
  unfold Search.uploads, Search.launches, Search.read_backs in *.
  rewrite !omap_app, Hu, Hn, Hr. simpl.
  rewrite map_app, length_app, !replicate_add. simpl.
  repeat split; by rewrite <- app_assoc.
Qed.
End Working_backend.

Lemma seqZ_to_nat (m n : Z) : seqZ m (Z.of_nat (Z.to_nat n)) = seqZ m n.
Proof. unfold seqZ. by rewrite Nat2Z.id. Qed.

(** With a backend that never fails the search is the run of the loop body
    over the enumeration, from the machine the set-up leaves. *)
Lemma search_as_attempts status now ct charset max_key_length :
  (forall h c, status h c = CL_SUCCESS) ->
  Search.brute_force_rc4_gpu status now ct charset max_key_length
  = match Search.attempts status now ct 7 8 (now (Search.setup_calls ct))
            (Search.candidates charset max_key_length) (Search.ready ct) with
    | (Go _, m) =>
        (Return [],
         set_console
           (console m
            ++ Search.no_key_lines (now (trace m) - now (Search.setup_calls ct))) m)
    | (Stop r, m) => (r, m)
    end.
Proof.
  intros Hok. unfold Search.brute_force_rc4_gpu, Search.body.
  unfold bind at 1. rewrite (initialise_ok status Hok).
  unfold bind at 1. unfold ask at 1. cbn [fst snd].
  unfold bind at 1. rewrite length_loop_attempts by lia.
  rewrite seqZ_to_nat. fold (Search.candidates charset max_key_length).
  change (trace (Search.ready ct)) with (Search.setup_calls ct).
  destruct (Search.attempts _ _ _ _ _ _ _ _) as [[[]|r] m]; [|done].
  cbv [bind ask say modify leave]. destruct m; simpl.
  unfold set_console, Search.no_key_lines. simpl. by rewrite <- app_assoc.
Qed.

Lemma first_accepted (accept : list Z -> bool) (keys : list (list Z)) :
  Forall (fun k => accept k = false) keys \/
  exists pre key post,
    keys = pre ++ key :: post /\
    Forall (fun k => accept k = false) pre /\ accept key = true.
Proof.
  induction keys as [|k keys IH]; [by left|].
  destruct (accept k) eqn:Hk.
  - right. exists [], k, keys. by repeat split.
  - destruct IH as [IH|(pre & key & post & -> & Hpre & Hkey)].
    + left. by constructor.
    + right. exists (k :: pre), key, post. repeat split; [|done]. by constructor.
Qed.

Lemma ready_device_out ct : length (device_out (Search.ready ct)) = length ct.
Proof. simpl. apply length_replicate. Qed.

Lemma dispatch_empty (key : list Z) : Search.dispatch [] key = [].
Proof.
  unfold Search.dispatch, Kernel.run_kernel. simpl.
  by rewrite for_range_empty by lia.
Qed.

(** ** The search on a backend that may fail *)

Section Failing_backend.
Variable status : list cl_call -> cl_call -> Z.
Variable now : list cl_call -> Z.

Lemma clean_nil : Search.clean status [].
Proof. intros i c H. by rewrite lookup_nil in H. Qed.

Lemma clean_snoc (t : list cl_call) (c : cl_call) :
  Search.clean status t ->
  (Search.checked c = true -> status t c = CL_SUCCESS) ->
  Search.clean status (t ++ [c]).
Proof.
  intros Ht Hc i c' Hi Hchk.
  destruct (decide (i < length t)%nat) as [Hlt|Hge].
  - rewrite lookup_app_l in Hi by done.
    rewrite take_app_le by lia. by apply Ht.
  - rewrite lookup_app_r in Hi by lia.
    destruct (i - length t)%nat as [|k] eqn:Hk; simpl in Hi; [|done].
    injection Hi as <-. assert (i = length t) as -> by lia.
    rewrite take_app_length. by apply Hc.
Qed.

Lemma aborted_start (t : list cl_call) (c : cl_call) :
  Search.clean status t -> Search.checked c = true ->
  status t c <> CL_SUCCESS -> Search.aborted status (t ++ [c]) c.
Proof. intros Ht Hc Hs. exists t, []. by repeat split. Qed.

Lemma aborted_snoc (t : list cl_call) (c c' : cl_call) :
  Search.aborted status t c -> Search.follows c c' = true ->
  Search.aborted status (t ++ [c']) c.
Proof.
  intros (p & rest & -> & Hp & Hc & Hs & Hrest) Hf.
  exists p, (rest ++ [c']). rewrite <- app_assoc. simpl.
  repeat split; try done. apply Forall_app. split; [done|]. by constructor.
Qed.

Lemma sound_bind {A B : Type} (c : M A) (k : A -> M B) :
  Search.sound status c -> (forall a, Search.sound status (k a)) ->
  Search.sound status (bind c k).
Proof.
  intros Hc Hk m Hm. unfold bind. specialize (Hc m Hm).
  destruct (c m) as [[a|r] m']; [|exact Hc]. by apply Hk.
Qed.

Lemma sound_ret {A : Type} (a : A) : Search.sound status (ret a).
Proof. by intros m Hm. Qed.

Lemma sound_ask {A : Type} (f : machine -> A) : Search.sound status (ask f).
Proof. by intros m Hm. Qed.

Lemma sound_say (s : stream) (l : list item) : Search.sound status (say s l).
Proof. by intros m Hm. Qed.

Lemma lor5_zero (a b c d e : Z) :
  Z.lor (Z.lor (Z.lor (Z.lor a b) c) d) e = 0 ->
  a = 0 /\ b = 0 /\ c = 0 /\ d = 0 /\ e = 0.
Proof. rewrite !Z.lor_eq_0_iff. tauto. Qed.

Lemma lor5_nonzero (a b c d e : Z) :
  Z.lor (Z.lor (Z.lor (Z.lor a b) c) d) e <> 0 ->
  a <> 0 \/ (a = 0 /\ b <> 0) \/ (a = 0 /\ b = 0 /\ c <> 0) \/
  (a = 0 /\ b = 0 /\ c = 0 /\ d <> 0) \/
  (a = 0 /\ b = 0 /\ c = 0 /\ d = 0 /\ e <> 0).
Proof.
  intros H.
  destruct (decide (a = 0)) as [->|]; [|tauto].
  destruct (decide (b = 0)) as [->|]; [|tauto].
  destruct (decide (c = 0)) as [->|]; [|tauto].
  destruct (decide (d = 0)) as [->|]; [|tauto].
  destruct (decide (e = 0)) as [->|]; [|tauto].
  by destruct H.
Qed.

Ltac split_status :=
  match goal with
  | |- context [?e =? CL_SUCCESS] =>
      destruct (Z.eqb_spec e CL_SUCCESS); cbv beta iota zeta
  end.

Ltac solve_clean :=
  repeat (apply clean_snoc; [|intros ?; done]); assumption.

Ltac solve_aborted :=
  first [ apply aborted_start; [solve_clean | reflexivity | assumption]
        | apply aborted_snoc; [solve_aborted | reflexivity] ].

Ltac solve_throw :=
  split;
  [ eexists; split; [solve_aborted | reflexivity]
  | eexists; apply last_snoc ].

Lemma sound_attempt ct eb db t0 key_length key_str :
  Search.sound status
    (Search.attempt status now ct eb db t0 key_length key_str).
Proof.
  intros [t c dev host] Hm. simpl in Hm.
  cbv [Search.attempt bind Search.call Search.check ask modify say leave ret
       set_trace set_console set_device_out set_decrypted_data
       trace console device_out decrypted_data].
  split_status; [|cbv [Search.post trace console]; solve_throw].
  split_status.
  2: { cbv [Search.post trace console].
       match goal with
       | H : _ <> CL_SUCCESS |- _ =>
           apply lor5_nonzero in H
             as [H|[[? H]|[(?&?&H)|[(?&?&?&H)|(?&?&?&?&H)]]]]
       end; solve_throw. }
  match goal with
  | H : Z.lor _ _ = CL_SUCCESS |- _ => apply lor5_zero in H as (?&?&?&?&?)
  end.
  split_status; [|cbv [Search.post trace console]; solve_throw].
  split_status; [|cbv [Search.post trace console]; solve_throw].
  match goal with
  | |- context [is_valid_plaintext ?d] => destruct (is_valid_plaintext d)
  end; cbv [Search.post trace console]; solve_clean.
Qed.

Lemma sound_key_loop fuel ct eb db t0 key_length key_str :
  Search.sound status
    (Search.key_loop status now fuel ct eb db t0 key_length key_str).
Proof.
  revert key_str. induction fuel as [|fuel IH]; intros key_str.
  - by intros m Hm.
  - simpl. apply sound_bind; [apply sound_attempt|]. intros _.
    destruct (Std.next_permutation key_str) as [[] key_str'];
      [apply IH | apply sound_ret].
Qed.

Lemma sound_length_loop count ct charset eb db t0 key_length :
  Search.sound status
    (Search.length_loop status now count ct charset eb db t0 key_length).
Proof.
  revert key_length. induction count as [|count IH]; intros key_length.
  - apply sound_ret.
  - simpl. apply sound_bind; [apply sound_key_loop|]. intros _. apply IH.
Qed.

Lemma sound_initialise ct : Search.sound status (Search.initialise status ct).
Proof.
  intros [t c dev host] Hm. simpl in Hm.
  cbv [Search.initialise bind Search.call Search.check ask modify say leave
       ret set_trace set_console set_device_out set_decrypted_data
       trace console device_out decrypted_data].
  do 9 (split_status; [|cbv [Search.post trace console]; solve_throw]).
  cbv [Search.post trace console]. solve_clean.
Qed.

Lemma sound_body ct charset max_key_length :
  Search.sound status (Search.body status now ct charset max_key_length).
Proof.
  unfold Search.body.
  apply sound_bind; [apply sound_initialise|]. intros bufs.
  apply sound_bind; [apply sound_ask|]. intros start_time.
  apply sound_bind; [apply sound_length_loop|]. intros _.
  apply sound_bind; [apply sound_ask|]. intros end_time.
  apply sound_bind; [apply sound_say|]. intros _.
  apply sound_bind; [apply sound_say|]. intros _.
  by intros m Hm.
Qed.

Lemma follows_passive (c c' : cl_call) :
  Search.follows c c' = true -> Search.passive c' = true.
Proof. by destruct c, c'. Qed.

Lemma follows_diagnosis (c c' : cl_call) :
  Search.follows c c' = true -> Search.checked c' = true ->
  Search.diagnosis c' = Search.diagnosis c.
Proof. by destruct c, c'. Qed.

(** In the trace of an aborted run, a tested call that failed carries the
    diagnosis of the run, and only passive calls come after it. *)
Lemma aborted_inspect (t : list cl_call) (c0 c : cl_call) (i : nat) :
  Search.aborted status t c0 ->
  t !! i = Some c -> Search.checked c = true ->
  status (take i t) c <> CL_SUCCESS ->
  Search.diagnosis c = Search.diagnosis c0 /\
  forall k c', (i < k)%nat -> t !! k = Some c' -> Search.passive c' = true.
Proof.
  intros (p & rest & -> & Hp & Hc0 & Hs0 & Hrest) Hi Hc Hs.
  destruct (decide (i < length p)%nat) as [Hlt|Hge].
  { rewrite lookup_app_l in Hi by done. rewrite take_app_le in Hs by lia.
    destruct Hs. by apply Hp. }
  rewrite lookup_app_r in Hi by lia.
  assert (forall k c', (length p < k)%nat ->
            (p ++ c0 :: rest) !! k = Some c' -> Search.passive c' = true)
    as Hlater.
  { intros k c' Hk Hk'. rewrite lookup_app_r in Hk' by lia.
    destruct (k - length p)%nat as [|j] eqn:Ej; [lia|]. simpl in Hk'.
    eapply follows_passive. eapply Forall_lookup_1 in Hrest; eauto. }
  destruct (i - length p)%nat as [|j] eqn:Ei; simpl in Hi.
  - injection Hi as <-. split; [done|]. intros k c' Hk. apply Hlater. lia.
  - split.
    + apply follows_diagnosis; [|done].
      eapply Forall_lookup_1 in Hrest; eauto.
    + intros k c' Hk. apply Hlater. lia.
Qed.
End Failing_backend.

(** * The properties of the design description *)

(** ** Keystream kernel *)

(** C1.  The design description asks that the kernel's byte for position [p]
    be byte [p] of the serial generator (one cursor advance before every
    byte, hence [p + 1] advances).  The loop of lines 32-38 runs [gid]
    times, not [gid + 1]: for the key "Key" the serial generator starts
    EB 9F 77 (the published RC4 vector), the kernel emits AD at position 0
    and EB only at position 1. *)
Theorem kernel_is_one_advance_short :
  Reference.keystream [75; 101; 121] 3 3 = [235; 159; 119] /\
  Kernel.keystream_byte [75; 101; 121] 3 0 = 173 /\
  Kernel.keystream_byte [75; 101; 121] 3 1 = 235 /\
  Reference.keystream [75; 101; 121] 3 3 !! 0%nat
  <> Some (Kernel.keystream_byte [75; 101; 121] 3 0).
Proof. vm_compute. repeat split; congruence. Qed.

(** C9.  After the key-scheduling pass the table is a permutation of 0..255,
    and so it stays, with both cursors inside the table, in every state the
    cursor loop reaches and after any further advance. *)
Theorem table_is_permutation (keys : list Z) (key_length : Z) :
  Forall is_uchar keys ->
  key_length = Z.of_nat (length keys) ->
  1 <= key_length ->
  Kernel.ksa keys key_length ≡ₚ Kernel.identity /\
  (forall gid, Kernel.valid_state (Kernel.advance keys key_length gid)) /\
  (forall st, Kernel.valid_state st -> Kernel.valid_state (Kernel.prga_step st)).
Proof.
  intros Hkeys _ _. split; [by apply ksa_permutation|]. split.
  - intros gid. by apply advance_valid.
  - apply prga_step_valid.
Qed.

Lemma table_is_permutation_witness :
  Kernel.ksa [75; 101; 121] 3 ≡ₚ Kernel.identity /\
  (forall gid, Kernel.valid_state (Kernel.advance [75; 101; 121] 3 gid)) /\
  (forall st, Kernel.valid_state st -> Kernel.valid_state (Kernel.prga_step st)).
Proof.
  apply (table_is_permutation [75; 101; 121] 3).
  - repeat constructor; unfold is_uchar; lia.
  - reflexivity.
  - lia.
Defined.

(** The dispatcher XORs every byte with the keystream byte of its position,
    so running it twice with the same key gives back the bytes it started
    from, whatever the keystream is. *)
Lemma dispatch_involutive (P K : list Z) :
  Forall is_uchar P ->
  Z.of_nat (length P) < 2 ^ 31 ->
  (1 <= length K)%nat ->
  Search.dispatch (Search.dispatch P K) K = P.
Proof.
  intros HP Hsize _.
  pose proof (dispatch_length P K) as Hlen.
  apply list_eq. intros p.
  destruct (decide (p < length P)%nat) as [Hp|Hp].
  - unfold Search.dispatch at 1. rewrite Hlen.
    rewrite run_kernel_lookup by (by rewrite ?length_replicate).
    unfold Kernel.plain_byte at 1.
    assert (rd (Search.dispatch P K) (Z.of_nat p)
            = Kernel.plain_byte P (map to_uchar K) (Z.of_nat (length K)) p) as ->.
    { unfold rd. rewrite Nat2Z.id. apply list_lookup_total_correct.
      unfold Search.dispatch.
      by rewrite run_kernel_lookup by (by rewrite ?length_replicate). }
    unfold Kernel.plain_byte. rewrite xor_twice by (by apply rd_uchar).
    symmetry. unfold rd. rewrite Nat2Z.id.
    by apply list_lookup_lookup_total_lt.
  - rewrite (lookup_ge_None_2 P) by lia.
    apply lookup_ge_None_2. rewrite !dispatch_length. lia.
Qed.

Lemma dispatch_involutive_witness :
  Search.dispatch (Search.dispatch [104; 105; 33] [107; 101; 121]) [107; 101; 121]
  = [104; 105; 33].
Proof.
  apply (dispatch_involutive [104; 105; 33] [107; 101; 121]).
  - repeat constructor; unfold is_uchar; lia.
  - reflexivity.
  - simpl. lia.
Defined.

(** C5.  The design description asks that decrypting [encrypt(P, K)] with
    [K] through the dispatcher give back [P].  The dispatcher inverts only
    itself: what the cipher (the serial generator) has encrypted it does not
    decrypt, because its keystream is one advance short.  The plaintext
    "hello world" encrypted under "ab" comes back as eleven bytes that are
    not the plaintext and that the validator rejects; so does "hi!" under
    "key". *)
Theorem dispatcher_does_not_decrypt_rc4 :
  let hello := [104; 101; 108; 108; 111; 32; 119; 111; 114; 108; 100] in
  Reference.encrypt hello [97; 98] 2
  = [70; 25; 180; 31; 122; 249; 88; 220; 183; 89; 24] /\
  Search.dispatch (Reference.encrypt hello [97; 98] 2) [97; 98]
  = [195; 55; 200; 199; 9; 236; 129; 243; 4; 156; 45] /\
  Search.dispatch (Reference.encrypt hello [97; 98] 2) [97; 98] <> hello /\
  is_valid_plaintext
    (Search.dispatch (Reference.encrypt hello [97; 98] 2) [97; 98]) = false /\
  Reference.encrypt [104; 105; 33] [107; 101; 121] 3 = [99; 5; 21] /\
  Search.dispatch [99; 5; 21] [107; 101; 121] <> [104; 105; 33].
Proof. vm_compute. repeat split; (reflexivity || discriminate). Qed.

(** ** Plaintext validator *)

Lemma all_of_Forall {A : Type} (pred : A -> bool) (data : list A) :
  all_of pred data = true <-> Forall (fun c => pred c = true) data.
Proof.
  induction data as [|c data IH]; simpl.
  - split; [constructor|done].
  - destruct (pred c) eqn:Hc.
    + rewrite IH. split; [by constructor|]. by intros [_ ?]%Forall_cons.
    + split; [done|]. intros [? _]%Forall_cons. congruence.
Qed.

(** C3.  The validator accepts a buffer exactly when every byte is printable
    or white space, that is, lies in 0x20..0x7E or in 9..13; so it accepts
    every all-printable buffer and the empty buffer and rejects every buffer
    that holds a byte of neither class, such as 0x00. *)
Theorem is_valid_plaintext_iff_printable_or_space :
  (forall D, is_valid_plaintext D = true
             <-> Forall (fun c => isprint c = true \/ isspace c = true) D) /\
  (forall D, is_valid_plaintext D = true
             <-> Forall (fun c => 32 <= c <= 126 \/ 9 <= c <= 13) D) /\
  (forall D, Forall (fun c => 32 <= c <= 126) D -> is_valid_plaintext D = true) /\
  (forall D, Exists (fun c => isprint c = false /\ isspace c = false) D ->
             is_valid_plaintext D = false) /\
  (forall D1 D2, is_valid_plaintext (D1 ++ 0 :: D2) = false) /\
  is_valid_plaintext [] = true.
Proof.
  assert (forall D, is_valid_plaintext D = true
             <-> Forall (fun c => isprint c = true \/ isspace c = true) D) as H1.
  { intros D. unfold is_valid_plaintext. rewrite all_of_Forall.
    apply Forall_proper; [|done]. intros c. by rewrite orb_true_iff. }
  assert (forall c, (isprint c = true \/ isspace c = true)
                    <-> (32 <= c <= 126 \/ 9 <= c <= 13)) as Hclass.
  { intros c. unfold isprint, isspace.
    rewrite orb_true_iff, !andb_true_iff, Z.eqb_eq, !Z.leb_le. lia. }
  assert (forall D, Exists (fun c => isprint c = false /\ isspace c = false) D ->
             is_valid_plaintext D = false) as H4.
  { intros D HE. destruct (is_valid_plaintext D) eqn:E; [|done].
    apply H1 in E. apply Exists_exists in HE as (c & Hin & Hp & Hs).
    rewrite Forall_forall in E. destruct (E c Hin); congruence. }
  split; [exact H1|]. split.
  { intros D. rewrite H1. apply Forall_proper; [|done]. intros c. apply Hclass. }
  split.
  { intros D HD. apply H1. eapply Forall_impl; [exact HD|].
    intros c Hc. apply Hclass. by left. }
  split; [exact H4|]. split; [|done].
  intros D1 D2. apply H4. apply Exists_app. right. by left.
Qed.

(** ** Key enumeration *)

(** C2.  The design description asks for the [C^L] strings over the
    character set for every length [L].  The loop starts from [L] copies of
    [charset[0]] and asks [std::next_permutation] for more, which a string
    of equal characters does not have: whatever the character set, one key
    is tried per length.  With the character set "ab" and lengths up to 2
    the search tries "a" and "aa" and gives up, although six keys exist. *)
Theorem enumeration_is_one_key_per_length :
  (forall charset key_length,
     Search.candidates_of_length charset key_length
     = [replicate (Z.to_nat key_length) (Search.charset_front charset)]) /\
  Search.candidates [97; 98] 2 = [[97]; [97; 97]] /\
  (let out := Search.brute_force_rc4_gpu (fun _ _ => CL_SUCCESS)
                (fun t => Z.of_nat (length t)) [0; 0; 0] [97; 98] 2 in
   fst out = Return [] /\
   Search.uploads (trace (snd out)) = [[0; 0; 0]; [97]; [97; 97]] /\
   console (snd out) = Search.no_key_lines 18).
Proof.
  split; [apply candidates_of_length_single|]. split; [reflexivity|].
  vm_compute. repeat split; reflexivity.
Qed.

(** ** The search *)

(** C4.  When all backend calls succeed and some key of the enumeration is
    accepted, the search returns the decryption under the first accepted
    key; the keys handed to the backend, the launches and the read-backs are
    those of the keys up to that one, and none of a later key. *)
Theorem first_accepted_key_ends_search status now ct charset max_key_length
    pre key post :
  (forall h c, status h c = CL_SUCCESS) ->
  Z.of_nat (length ct) < 2 ^ 31 ->
  Search.candidates charset max_key_length = pre ++ key :: post ->
  Forall (fun k => is_valid_plaintext (Search.dispatch ct k) = false) pre ->
  is_valid_plaintext (Search.dispatch ct key) = true ->
  let out := Search.brute_force_rc4_gpu status now ct charset max_key_length in
  fst out = Return (Search.dispatch ct key) /\
  Search.uploads (trace (snd out)) = ct :: map (map to_uchar) (pre ++ [key]) /\
  Search.launches (trace (snd out))
  = replicate (length (pre ++ [key])) (Z.of_nat (length ct)) /\
  Search.read_backs (trace (snd out)) = replicate (length (pre ++ [key])) 8%nat /\
  console (snd out)
  = Search.found_lines key
      (now (trace (snd out)) - now (Search.setup_calls ct)).
Proof.
  intros Hok Hsize Hsplit Hpre Hkey. cbv zeta.
  rewrite search_as_attempts by done. rewrite Hsplit.
  destruct (attempts_found status now Hok ct Hsize 7 8
              (now (Search.setup_calls ct)) pre key post (Search.ready ct)
              (ready_device_out ct) Hpre Hkey)
    as (m & -> & Hc & Hu & Hn & Hr).
  cbn [fst snd]. rewrite Hc, Hu, Hn, Hr. by repeat split.
Qed.

Lemma first_accepted_key_ends_search_witness :
  let status := fun (_ : list cl_call) (_ : cl_call) => CL_SUCCESS in
  let now := fun t : list cl_call => Z.of_nat (length t) in
  let out := Search.brute_force_rc4_gpu status now [225] [97; 98] 2 in
  fst out = Return (Search.dispatch [225] [97]) /\
  Search.uploads (trace (snd out)) = [225] :: map (map to_uchar) ([] ++ [[97]]) /\
  Search.launches (trace (snd out))
  = replicate (length ([] ++ [[97]])) (Z.of_nat (length [225])) /\
  Search.read_backs (trace (snd out)) = replicate (length ([] ++ [[97]])) 8%nat /\
  console (snd out)
  = Search.found_lines [97]
      (now (trace (snd out)) - now (Search.setup_calls [225])).
Proof.
  apply (first_accepted_key_ends_search _ _ [225] [97; 98] 2 [] [97] [[97; 97]]).
  - reflexivity.
  - reflexivity.
  - reflexivity.
  - constructor.
  - vm_compute. reflexivity.
Defined.

(** C7.  When all backend calls succeed and every key of the enumeration is
    rejected, the call returns normally, with the empty vector, after
    writing "No valid key found" and the elapsed time; and that line is
    written only then. *)
Theorem exhausted_search_reports_no_key status now ct charset max_key_length :
  (forall h c, status h c = CL_SUCCESS) ->
  Z.of_nat (length ct) < 2 ^ 31 ->
  let out := Search.brute_force_rc4_gpu status now ct charset max_key_length in
  let rejected := fun k => is_valid_plaintext (Search.dispatch ct k) = false in
  (Forall rejected (Search.candidates charset max_key_length) ->
   fst out = Return [] /\
   console (snd out)
   = Search.no_key_lines (now (trace (snd out)) - now (Search.setup_calls ct)) /\
   Search.uploads (trace (snd out))
   = ct :: map (map to_uchar) (Search.candidates charset max_key_length)) /\
  (In (Cout, [Text "No valid key found"]) (console (snd out)) ->
   Forall rejected (Search.candidates charset max_key_length)).
Proof.
  intros Hok Hsize. cbv zeta.
  rewrite search_as_attempts by done. split.
  - intros Hrej.
    destruct (attempts_rejected status now Hok ct Hsize 7 8
                (now (Search.setup_calls ct)) _ (Search.ready ct)
                (ready_device_out ct) Hrej)
      as (m & -> & _ & Hc & Hu & _).
    cbn [fst snd]. unfold set_console. cbn [console trace].
    rewrite Hc, Hu. by repeat split.
  - intros Hin.
    destruct (first_accepted (fun k => is_valid_plaintext (Search.dispatch ct k))
                (Search.candidates charset max_key_length))
      as [Hrej|(pre & key & post & Hsplit & Hpre & Hkey)]; [done|].
    exfalso. rewrite Hsplit in Hin.
    destruct (attempts_found status now Hok ct Hsize 7 8
                (now (Search.setup_calls ct)) pre key post (Search.ready ct)
                (ready_device_out ct) Hpre Hkey)
      as (m & E & Hc & _).
    rewrite E in Hin. cbn [fst snd] in Hin. rewrite Hc in Hin.
    simpl in Hin. destruct Hin as [H|[H|[]]]; discriminate H.
Qed.

Lemma exhausted_search_reports_no_key_witness :
  let status := fun (_ : list cl_call) (_ : cl_call) => CL_SUCCESS in
  let now := fun t : list cl_call => Z.of_nat (length t) in
  let out := Search.brute_force_rc4_gpu status now [0; 0; 0] [97; 98] 2 in
  fst out = Return [] /\
  console (snd out)
  = Search.no_key_lines (now (trace (snd out)) - now (Search.setup_calls [0; 0; 0])) /\
  Search.uploads (trace (snd out))
  = [0; 0; 0] :: map (map to_uchar) (Search.candidates [97; 98] 2).
Proof.
  apply (exhausted_search_reports_no_key
           (fun _ _ => CL_SUCCESS) (fun t => Z.of_nat (length t))
           [0; 0; 0] [97; 98] 2).
  - reflexivity.
  - reflexivity.
  - assert (Search.candidates [97; 98] 2 = [[97]; [97; 97]]) as ->
      by (vm_compute; reflexivity).
    repeat (constructor; [vm_compute; reflexivity|]). constructor.
Defined.

(** C10.  On an empty ciphertext the first key is accepted (its decryption
    is the empty buffer) and the call returns the empty vector after a single
    launch of zero work items; an exhausted search returns the empty vector
    as well, so the returned value does not tell the two apart. *)
Theorem empty_ciphertext_found_returns_empty status now charset max_key_length :
  (forall h c, status h c = CL_SUCCESS) ->
  charset <> [] ->
  1 <= max_key_length ->
  let out := Search.brute_force_rc4_gpu status now [] charset max_key_length in
  let first := [Search.charset_front charset] in
  head (Search.candidates charset max_key_length) = Some first /\
  is_valid_plaintext (Search.dispatch [] first) = true /\
  fst out = Return [] /\
  console (snd out)
  = Search.found_lines first (now (trace (snd out)) - now (Search.setup_calls [])) /\
  Search.launches (trace (snd out)) = [0] /\
  (forall ct' charset' max',
     Z.of_nat (length ct') < 2 ^ 31 ->
     Forall (fun k => is_valid_plaintext (Search.dispatch ct' k) = false)
       (Search.candidates charset' max') ->
     fst (Search.brute_force_rc4_gpu status now ct' charset' max') = Return []).
Proof.
  intros Hok _ Hmax. cbv zeta.
  assert (exists post, Search.candidates charset max_key_length
                       = [] ++ [Search.charset_front charset] :: post)
    as [post Hsplit].
  { unfold Search.candidates. rewrite <- seqZ_to_nat.
    destruct (Z.to_nat max_key_length) as [|n] eqn:E; [lia|].
    rewrite candidates_cons. by eexists. }
  assert (is_valid_plaintext
            (Search.dispatch [] [Search.charset_front charset]) = true) as Hacc.
  { by rewrite dispatch_empty. }
  split; [by rewrite Hsplit|]. split; [done|].
  assert (Z.of_nat (length (@nil Z)) < 2 ^ 31) as Hsize by done.
  rewrite search_as_attempts by done. rewrite Hsplit.
  destruct (attempts_found status now Hok [] Hsize 7 8
              (now (Search.setup_calls [])) [] [Search.charset_front charset]
              post (Search.ready []) (ready_device_out []) (Forall_nil_2 _) Hacc)
    as (m & -> & Hc & _ & Hn & _).
  cbn [fst snd]. rewrite Hc, Hn, dispatch_empty.
  split; [done|]. split; [done|]. split; [done|].
  intros ct' charset' max' Hsize' Hrej.
  rewrite search_as_attempts by done.
  destruct (attempts_rejected status now Hok ct' Hsize' 7 8
              (now (Search.setup_calls ct')) _ (Search.ready ct')
              (ready_device_out ct') Hrej) as (m' & -> & _).
  done.
Qed.

Lemma empty_ciphertext_found_returns_empty_witness :
  let status := fun (_ : list cl_call) (_ : cl_call) => CL_SUCCESS in
  let now := fun t : list cl_call => Z.of_nat (length t) in
  let out := Search.brute_force_rc4_gpu status now [] [97; 98] 2 in
  let first := [Search.charset_front [97; 98]] in
  head (Search.candidates [97; 98] 2) = Some first /\
  is_valid_plaintext (Search.dispatch [] first) = true /\
  fst out = Return [] /\
  console (snd out)
  = Search.found_lines first (now (trace (snd out)) - now (Search.setup_calls [])) /\
  Search.launches (trace (snd out)) = [0] /\
  (forall ct' charset' max',
     Z.of_nat (length ct') < 2 ^ 31 ->
     Forall (fun k => is_valid_plaintext (Search.dispatch ct' k) = false)
       (Search.candidates charset' max') ->
     fst (Search.brute_force_rc4_gpu status now ct' charset' max') = Return []).
Proof.
  apply (empty_ciphertext_found_returns_empty
           (fun _ _ => CL_SUCCESS) (fun t => Z.of_nat (length t)) [97; 98] 2).
  - reflexivity.
  - discriminate.
  - lia.
Defined.

(** ** Backend resources and failures *)

(** C6.  Every attempt launches the kernel once, over as many work items as
    the ciphertext has bytes, and a rejected attempt releases its key buffer
    after the read-back.  An accepted attempt does not: line 168 returns
    before line 171.  With the one-byte ciphertext E1 and the character set
    "ab" the first key is accepted (plaintext "X"); its key buffer, created
    by call 9, is never released.  With the ciphertext 00 00 00 the same key
    is rejected and call 17 releases the buffer. *)
Theorem accepted_attempt_keeps_key_buffer :
  let status := fun (_ : list cl_call) (_ : cl_call) => CL_SUCCESS in
  let now := fun t : list cl_call => Z.of_nat (length t) in
  let accepted := Search.brute_force_rc4_gpu status now [225] [97; 98] 2 in
  let rejected := Search.brute_force_rc4_gpu status now [0; 0; 0] [97; 98] 2 in
  fst accepted = Return [88] /\
  trace (snd accepted) !! 9%nat
  = Some (clCreateBuffer (Z.lor CL_MEM_READ_ONLY CL_MEM_COPY_HOST_PTR) 1 (Some [97])) /\
  Search.launches (trace (snd accepted)) = [1] /\
  last (trace (snd accepted)) = Some (clEnqueueReadBuffer 8 1) /\
  Search.released (trace (snd accepted)) 9 = false /\
  trace (snd rejected) !! 9%nat
  = Some (clCreateBuffer (Z.lor CL_MEM_READ_ONLY CL_MEM_COPY_HOST_PTR) 1 (Some [97])) /\
  trace (snd rejected) !! 17%nat = Some (clReleaseMemObject 9) /\
  Search.released (trace (snd rejected)) 9 = true /\
  Search.launches (trace (snd rejected)) = [3; 3].
Proof. vm_compute. repeat split; reflexivity. Qed.

(** C8.  Whatever the backend answers: if a call whose status the code tests
    (set-up, buffer creation, argument binding, launch, read-back) has
    failed, the search has thrown the exception that names this kind of
    call, the last line written is the report on [std::cerr], and after the
    failed call the backend has only been asked to bind the remaining
    arguments or for the build log: no buffer is created, no kernel launched
    and nothing read back any more, and no vector is returned. *)
Theorem backend_failure_aborts_search status now ct charset max_key_length
    (i : nat) (c : cl_call) :
  let out := Search.brute_force_rc4_gpu status now ct charset max_key_length in
  trace (snd out) !! i = Some c ->
  Search.checked c = true ->
  status (take i (trace (snd out))) c <> CL_SUCCESS ->
  fst out = Throw (Search.diagnosis c) /\
  (exists l, last (console (snd out)) = Some (Cerr, l)) /\
  (forall k c', (i < k)%nat -> trace (snd out) !! k = Some c' ->
                Search.passive c' = true).
Proof.
  cbv zeta. intros Hi Hc Hs.
  pose proof (sound_body status now ct charset max_key_length
                Search.power_on (clean_nil status)) as Hpost.
  unfold Search.brute_force_rc4_gpu in *.
  destruct (Search.body status now ct charset max_key_length Search.power_on)
    as [[[]|r] m].
  cbn [fst snd] in *. unfold Search.post in Hpost.
  destruct r as [data|what|].
  - destruct Hs. by apply Hpost.
  - destruct Hpost as [(c0 & Hab & ->) Hlast].
    destruct (aborted_inspect status _ c0 c i Hab Hi Hc Hs) as [Hd Hlater].
    by rewrite Hd.
  - destruct Hs. by apply Hpost.
Qed.

Lemma backend_failure_aborts_search_witness :
  let status := fun (_ : list cl_call) (c : cl_call) =>
                  match c with clEnqueueNDRangeKernel _ => -5 | _ => CL_SUCCESS end in
  let now := fun t : list cl_call => Z.of_nat (length t) in
  let out := Search.brute_force_rc4_gpu status now [0; 0; 0] [97; 98] 2 in
  fst out = Throw (Search.diagnosis (clEnqueueNDRangeKernel 3)) /\
  (exists l, last (console (snd out)) = Some (Cerr, l)) /\
  (forall k c', (15 < k)%nat -> trace (snd out) !! k = Some c' ->
                Search.passive c' = true).
Proof.
  apply (backend_failure_aborts_search
           (fun _ c => match c with clEnqueueNDRangeKernel _ => -5 | _ => CL_SUCCESS end)
           (fun t => Z.of_nat (length t)) [0; 0; 0] [97; 98] 2 15
           (clEnqueueNDRangeKernel 3)).
  - vm_compute. reflexivity.
  - reflexivity.
  - vm_compute. discriminate.
Defined.

(** * Further properties of the code *)

(** ** The kernel and its launch *)

Lemma kernel_lags_reference_witness :
  Reference.keystream [75; 101; 121] 3 3 !! 1%nat
  = Some (Kernel.keystream_byte [75; 101; 121] 3 (Z.of_nat 1 + 1)).
Proof. apply (kernel_lags_reference [75; 101; 121] 3 1 3). lia. Defined.

(** One launch over a ciphertext of fewer than 2^31 bytes keeps the length
    of the output buffer and leaves at every position the ciphertext byte
    XORed with the keystream byte of that position, whatever the buffer
    held before. *)
Theorem launch_writes_every_position enc out keys key_length (n : nat) :
  Z.of_nat n < 2 ^ 31 ->
  length out = n ->
  let out' := Kernel.run_kernel enc out keys key_length
                (int_of_size_t (Z.of_nat n)) (Z.of_nat n) in
  length out' = n /\
  forall p, (p < n)%nat ->
    out' !! p
    = Some (to_uchar (Z.lxor (rd enc (Z.of_nat p))
                             (Kernel.keystream_byte keys key_length (Z.of_nat p)))).
Proof.
  intros Hn Hlen. cbv zeta. split.
  - by rewrite run_kernel_length.
  - intros p Hp. by rewrite run_kernel_lookup.
Qed.

Lemma launch_writes_every_position_witness :
  let out' := Kernel.run_kernel [1; 2; 3] [9; 9; 9] [107] 1
                (int_of_size_t (Z.of_nat 3)) (Z.of_nat 3) in
  length out' = 3%nat /\
  forall p, (p < 3)%nat ->
    out' !! p
    = Some (to_uchar (Z.lxor (rd [1; 2; 3] (Z.of_nat p))
                             (Kernel.keystream_byte [107] 1 (Z.of_nat p)))).
Proof.
  apply (launch_writes_every_position [1; 2; 3] [9; 9; 9] [107] 1 3).
  - reflexivity.
  - reflexivity.
Defined.

(** A work item writes its own cell only. *)
Lemma rc4_decrypt_lookup enc out keys key_length (n : nat) (id : Z) (p : nat) :
  Z.of_nat n < 2 ^ 31 -> length out = n -> 0 <= id < Z.of_nat n ->
  Kernel.rc4_decrypt enc out keys key_length (int_of_size_t (Z.of_nat n))
    (int_of_size_t id) !! p
  = if decide (Z.of_nat p = id) then Some (Kernel.plain_byte enc keys key_length p)
    else out !! p.
Proof.
  intros Hn Hlen Hid. rewrite !int_of_size_t_small by lia.
  unfold Kernel.rc4_decrypt.
  destruct (id <? Z.of_nat n) eqn:E; [|apply Z.ltb_ge in E; lia].
  unfold wr. rewrite list_lookup_insert.
  repeat case_decide; destruct_and?; try lia; try done.
  by subst id.
Qed.

Lemma items_lookup enc keys key_length (n : nat) (ids : list Z) out (p : nat) :
  Z.of_nat n < 2 ^ 31 -> length out = n ->
  Forall (fun id => 0 <= id < Z.of_nat n) ids ->
  foldl (fun o id =>
           Kernel.rc4_decrypt enc o keys key_length (int_of_size_t (Z.of_nat n))
             (int_of_size_t id)) out ids !! p
  = if decide (Z.of_nat p ∈ ids) then Some (Kernel.plain_byte enc keys key_length p)
    else out !! p.
Proof.
  intros Hn Hlen Hids. revert out Hlen.
  induction Hids as [|id ids Hid _ IH]; intros out Hlen; cbn [foldl].
  - case_decide as H; [|done]. by apply elem_of_nil in H.
  - rewrite IH by (by rewrite rc4_decrypt_length).
    rewrite rc4_decrypt_lookup by done.
    destruct (decide (Z.of_nat p ∈ ids)) as [H1|H1];
      destruct (decide (Z.of_nat p = id)) as [H2|H2];
      destruct (decide (Z.of_nat p ∈ id :: ids)) as [H3|H3]; try done;
      exfalso; rewrite elem_of_cons in H3; tauto.
Qed.

(** The work items of a launch may run in any order: running the kernel
    once for every global id, in whatever order, fills the output buffer as
    the launch in ascending order does. *)
Theorem launch_order_immaterial enc out keys key_length (n : nat) (ids : list Z) :
  Z.of_nat n < 2 ^ 31 ->
  length out = n ->
  ids ≡ₚ seqZ 0 (Z.of_nat n) ->
  foldl (fun o id =>
           Kernel.rc4_decrypt enc o keys key_length (int_of_size_t (Z.of_nat n))
             (int_of_size_t id)) out ids
  = Kernel.run_kernel enc out keys key_length (int_of_size_t (Z.of_nat n))
      (Z.of_nat n).
Proof.
  intros Hn Hlen Hperm. apply list_eq. intros p.
  assert (forall l, l ≡ₚ seqZ 0 (Z.of_nat n) ->
            Forall (fun id => 0 <= id < Z.of_nat n) l) as Hrange.
  { intros l ->. apply Forall_seqZ. lia. }
  unfold Kernel.run_kernel, for_range. rewrite Z.sub_0_r.
  rewrite !items_lookup by auto.
  destruct (decide (Z.of_nat p ∈ ids)) as [H1|H1];
    destruct (decide (Z.of_nat p ∈ seqZ 0 (Z.of_nat n))) as [H2|H2]; try done;
    exfalso; rewrite Hperm in H1; tauto.
Qed.

Lemma launch_order_immaterial_witness :
  foldl (fun o id =>
           Kernel.rc4_decrypt [1; 2; 3] o [107] 1 (int_of_size_t (Z.of_nat 3))
             (int_of_size_t id)) [0; 0; 0] [2; 0; 1]
  = Kernel.run_kernel [1; 2; 3] [0; 0; 0] [107] 1 (int_of_size_t (Z.of_nat 3))
      (Z.of_nat 3).
Proof.
  apply (launch_order_immaterial [1; 2; 3] [0; 0; 0] [107] 1 3 [2; 0; 1]).
  - reflexivity.
  - reflexivity.
  - change (seqZ 0 (Z.of_nat 3)) with [0; 1; 2].
    etrans; [apply perm_swap|]. apply perm_skip, perm_swap.
Defined.

(** ** The validator *)

(** The validator accepts a concatenation exactly when it accepts both
    parts. *)
Theorem is_valid_plaintext_app (a b : list Z) :
  is_valid_plaintext (a ++ b) = is_valid_plaintext a && is_valid_plaintext b.
Proof.
  unfold is_valid_plaintext. induction a as [|c a IH]; simpl; [done|].
  by destruct (isprint c || isspace c).
Qed.

(** ** The enumeration *)

Lemma find_pivot_split before i1 tail front pivot suffix :
  Std.find_pivot before i1 tail = Some (front, pivot, suffix) ->
  rev before ++ i1 :: tail = rev front ++ pivot :: suffix.
Proof.
  revert i1 tail. induction before as [|i before IH]; intros i1 tail; simpl.
  - done.
  - destruct (i <? i1).
    + intros [= <- <- <-]. by rewrite <- app_assoc.
    + intros H. apply IH in H. by rewrite <- app_assoc.
Qed.

Lemma swap_first_greater_permutes pivot rsuffix x rsuffix' :
  Std.swap_first_greater pivot rsuffix = Some (x, rsuffix') ->
  x :: rsuffix' ≡ₚ pivot :: rsuffix.
Proof.
  revert x rsuffix'. induction rsuffix as [|i2 rest IH]; intros x rsuffix'; simpl.
  - done.
  - destruct (pivot <? i2).
    + intros [= <- <-]. apply perm_swap.
    + destruct (Std.swap_first_greater pivot rest) as [[y rest']|]; [|done].
      intros [= <- <-]. rewrite perm_swap. rewrite (IH y rest' eq_refl).
      apply perm_swap.
Qed.

Lemma next_permutation_permutes (l : list Z) : snd (Std.next_permutation l) ≡ₚ l.
Proof.
  unfold Std.next_permutation.
  destruct (rev l) as [|last before] eqn:Hrev; [done|].
  assert (l = rev before ++ [last]) as Hl.
  { rewrite <- (rev_involutive l), Hrev. done. }
  destruct (Std.find_pivot before last []) as [[[front pivot] suffix]|] eqn:Hp.
  - apply find_pivot_split in Hp. rewrite <- Hl in Hp.
    destruct (Std.swap_first_greater pivot (rev suffix)) as [[x rs]|] eqn:Hs;
      [|done].
    apply swap_first_greater_permutes in Hs. simpl.
    rewrite Hs, Hp. f_equiv. f_equiv. symmetry. apply Permutation_rev.
  - simpl. rewrite <- Hrev. symmetry. apply Permutation_rev.
Qed.

(** [std::next_permutation] rearranges its argument, so every key string
    one [do ... while] loop visits is a rearrangement of the string the loop
    started from: no character enters a key that was not in it at line 129. *)
Theorem visited_keys_are_rearrangements :
  (forall l, snd (Std.next_permutation l) ≡ₚ l) /\
  (forall fuel key_str,
     Forall (fun k => k ≡ₚ key_str) (Search.permutations_from fuel key_str)).
Proof.
  split; [apply next_permutation_permutes|].
  intros fuel. induction fuel as [|fuel IH]; intros key_str; simpl.
  - constructor.
  - constructor; [done|].
    pose proof (next_permutation_permutes key_str) as Hp.
    destruct (Std.next_permutation key_str) as [[] key_str']; [|constructor].
    simpl in Hp. eapply Forall_impl; [apply IH|].
    intros k Hk. simpl in Hk. by rewrite Hk.
Qed.

(** All keys of the enumeration decrypt a ciphertext to the same bytes:
    they are repetitions of [charset[0]] and the key schedule reads the key
    cyclically. *)
Theorem every_candidate_decrypts_alike (ct charset : list Z) (max_key_length : Z)
    (key1 key2 : list Z) :
  In key1 (Search.candidates charset max_key_length) ->
  In key2 (Search.candidates charset max_key_length) ->
  Search.dispatch ct key1 = Search.dispatch ct key2.
Proof.
  intros H1 H2.
  rewrite (candidates_decrypt_alike ct charset max_key_length key1 H1).
  by rewrite (candidates_decrypt_alike ct charset max_key_length key2 H2).
Qed.

Lemma every_candidate_decrypts_alike_witness :
  Search.dispatch [1; 2; 3] [97] = Search.dispatch [1; 2; 3] [97; 97; 97].
Proof.
  apply (every_candidate_decrypts_alike [1; 2; 3] [97; 98] 3).
  - vm_compute. tauto.
  - vm_compute. tauto.
Defined.

(** ** The search on a backend that never fails *)

Lemma candidates_first (charset : list Z) (max_key_length : Z) :
  1 <= max_key_length ->
  exists post,
    Search.candidates charset max_key_length
    = [Search.charset_front charset] :: post.
Proof.
  intros Hmax. unfold Search.candidates. rewrite <- seqZ_to_nat.
  destruct (Z.to_nat max_key_length) as [|n] eqn:E; [lia|].
  rewrite candidates_cons. by eexists.
Qed.

Lemma candidates_all_rejected (ct charset : list Z) (max_key_length : Z) :
  is_valid_plaintext (Search.dispatch ct [Search.charset_front charset]) = false ->
  Forall (fun k => is_valid_plaintext (Search.dispatch ct k) = false)
    (Search.candidates charset max_key_length).
Proof.
  intros Hrej. apply List.Forall_forall. intros k Hk.
  by rewrite (candidates_decrypt_alike ct charset max_key_length k Hk).
Qed.

(** With a working backend and at least one key length, the first key
    decides the search: if the decryption under the one-character key
    [charset[0]] is accepted it is returned and no other key is handed to
    the backend; otherwise every key is tried and rejected and the empty
    vector is returned. *)
Theorem search_decided_by_first_key status now ct charset max_key_length :
  (forall h c, status h c = CL_SUCCESS) ->
  Z.of_nat (length ct) < 2 ^ 31 ->
  1 <= max_key_length ->
  let out := Search.brute_force_rc4_gpu status now ct charset max_key_length in
  let first := [Search.charset_front charset] in
  let elapsed := now (trace (snd out)) - now (Search.setup_calls ct) in
  if is_valid_plaintext (Search.dispatch ct first)
  then fst out = Return (Search.dispatch ct first) /\
       Search.uploads (trace (snd out)) = [ct; map to_uchar first] /\
       console (snd out) = Search.found_lines first elapsed
  else fst out = Return [] /\
       Search.uploads (trace (snd out))
       = ct :: map (map to_uchar) (Search.candidates charset max_key_length) /\
       console (snd out) = Search.no_key_lines elapsed.
Proof.
  intros Hok Hsize Hmax. cbv zeta.
  destruct (candidates_first charset max_key_length Hmax) as [post Hsplit].
  rewrite search_as_attempts by done.
  destruct (is_valid_plaintext (Search.dispatch ct [Search.charset_front charset]))
    eqn:Hfirst.
  - rewrite Hsplit.
    destruct (attempts_found status now Hok ct Hsize 7 8
                (now (Search.setup_calls ct)) [] [Search.charset_front charset]
                post (Search.ready ct) (ready_device_out ct) (Forall_nil_2 _)
                Hfirst)
      as (m & E & Hc & Hu & _).
    rewrite app_nil_l in E. rewrite E. cbn [fst snd]. by rewrite Hc, Hu.
  - pose proof (candidates_all_rejected ct charset max_key_length Hfirst) as Hrej.
    destruct (attempts_rejected status now Hok ct Hsize 7 8
                (now (Search.setup_calls ct)) _ (Search.ready ct)
                (ready_device_out ct) Hrej)
      as (m & -> & _ & Hc & Hu & _).
    cbn [fst snd]. unfold set_console. cbn [console trace].
    by rewrite Hc, Hu.
Qed.

Lemma search_decided_by_first_key_witness :
  let status := fun (_ : list cl_call) (_ : cl_call) => CL_SUCCESS in
  let now := fun t : list cl_call => Z.of_nat (length t) in
  let out := Search.brute_force_rc4_gpu status now [225; 1] [97; 98] 3 in
  let first := [Search.charset_front [97; 98]] in
  let elapsed := now (trace (snd out)) - now (Search.setup_calls [225; 1]) in
  if is_valid_plaintext (Search.dispatch [225; 1] first)
  then fst out = Return (Search.dispatch [225; 1] first) /\
       Search.uploads (trace (snd out)) = [[225; 1]; map to_uchar first] /\
       console (snd out) = Search.found_lines first elapsed
  else fst out = Return [] /\
       Search.uploads (trace (snd out))
       = [225; 1] :: map (map to_uchar) (Search.candidates [97; 98] 3) /\
       console (snd out) = Search.no_key_lines elapsed.
Proof.
  apply (search_decided_by_first_key
           (fun _ _ => CL_SUCCESS) (fun t => Z.of_nat (length t)) [225; 1]
           [97; 98] 3).
  - reflexivity.
  - reflexivity.
  - lia.
Defined.

(** With a working backend and a maximum key length below 1 the loops do
    not run: after the set-up no call is made, "No valid key found" and the
    line of the elapsed time are written and the empty vector is returned. *)
Theorem search_without_lengths status now ct charset max_key_length :
  (forall h c, status h c = CL_SUCCESS) ->
  max_key_length <= 0 ->
  let out := Search.brute_force_rc4_gpu status now ct charset max_key_length in
  fst out = Return [] /\
  trace (snd out) = Search.setup_calls ct /\
  Search.uploads (trace (snd out)) = [ct] /\
  Search.launches (trace (snd out)) = [] /\
  exists elapsed, console (snd out) = Search.no_key_lines elapsed.
Proof.
  intros Hok Hmax. cbv zeta. rewrite search_as_attempts by done.
  unfold Search.candidates. rewrite seqZ_nil by lia. simpl.
  repeat split. by eexists.
Qed.

Lemma search_without_lengths_witness :
  let status := fun (_ : list cl_call) (_ : cl_call) => CL_SUCCESS in
  let now := fun t : list cl_call => Z.of_nat (length t) in
  let out := Search.brute_force_rc4_gpu status now [1; 2] [97] 0 in
  fst out = Return [] /\
  trace (snd out) = Search.setup_calls [1; 2] /\
  Search.uploads (trace (snd out)) = [[1; 2]] /\
  Search.launches (trace (snd out)) = [] /\
  exists elapsed, console (snd out) = Search.no_key_lines elapsed.
Proof.
  apply (search_without_lengths
           (fun _ _ => CL_SUCCESS) (fun t => Z.of_nat (length t)) [1; 2] [97] 0).
  - reflexivity.
  - lia.
Defined.

(** Rejected attempts release their key buffer. *)
Lemma released_app (t u : list cl_call) (buf : nat) :
  Search.released (t ++ u) buf = Search.released t buf || Search.released u buf.
Proof. unfold Search.released. apply existsb_app. Qed.

Lemma attempts_rejected_released status now ct eb db t0 keys m m' :
  (forall h c, status h c = CL_SUCCESS) ->
  Z.of_nat (length ct) < 2 ^ 31 ->
  length (device_out m) = length ct ->
  Forall (fun k => is_valid_plaintext (Search.dispatch ct k) = false) keys ->
  key_buffers_released (trace m) ->
  Search.attempts status now ct eb db t0 keys m = (Go tt, m') ->
  key_buffers_released (trace m').
Proof.
  intros Hok Hsize. revert m. induction keys as [|k keys IH]; intros m Hlen Hrej Hm.
  - simpl. by intros [= <-].
  - apply Forall_cons in Hrej as [Hk Hrej].
    cbn [Search.attempts]. unfold bind.
    rewrite (attempt_ok status now Hok ct Hsize) by done.
    cbv zeta. rewrite Hk. apply IH; [apply dispatch_length|done|].
    cbn [trace]. intros i flags size host Hi Hlook.
    rewrite <- app_assoc in Hlook |- *. rewrite released_app.
    destruct (decide (i < length (trace m))%nat) as [Hlt|Hge].
    + rewrite lookup_app_l in Hlook by done.
      by rewrite (Hm i flags size host Hi Hlook).
    + rewrite lookup_app_r in Hlook by lia.
      destruct (i - length (trace m))%nat as [|j] eqn:Ej.
      * assert (i = length (trace m)) as -> by lia.
        simpl. rewrite Nat.eqb_refl. by rewrite !orb_true_r.
      * simpl in Hlook. do 8 (destruct j as [|j]; [done|]). done.
Qed.

(** With a working backend, a search that rejects every key has released
    every key buffer it created. *)
Theorem exhausted_search_releases_key_buffers status now ct charset max_key_length :
  (forall h c, status h c = CL_SUCCESS) ->
  Z.of_nat (length ct) < 2 ^ 31 ->
  Forall (fun k => is_valid_plaintext (Search.dispatch ct k) = false)
    (Search.candidates charset max_key_length) ->
  key_buffers_released
    (trace (snd (Search.brute_force_rc4_gpu status now ct charset max_key_length))).
Proof.
  intros Hok Hsize Hrej. rewrite search_as_attempts by done.
  destruct (Search.attempts _ _ _ _ _ _ _ _) as [[[]|r] m] eqn:E.
  - cbn [snd]. unfold set_console. cbn [trace].
    eapply (attempts_rejected_released status now ct 7 8); eauto.
    + apply ready_device_out.
    + intros i flags size host Hi Hlook. simpl in Hi, Hlook.
      do 9 (destruct i as [|i]; [lia|]). done.
  - destruct (attempts_rejected status now Hok ct Hsize 7 8
                (now (Search.setup_calls ct)) _ (Search.ready ct)
                (ready_device_out ct) Hrej) as (m' & E' & _).
    rewrite E' in E. done.
Qed.

Lemma exhausted_search_releases_key_buffers_witness :
  key_buffers_released
    (trace (snd (Search.brute_force_rc4_gpu
                   (fun _ _ => CL_SUCCESS) (fun t => Z.of_nat (length t))
                   [0; 0; 0] [97; 98] 2))).
Proof.
  apply (exhausted_search_releases_key_buffers
           (fun _ _ => CL_SUCCESS) (fun t => Z.of_nat (length t))
           [0; 0; 0] [97; 98] 2).
  - reflexivity.
  - reflexivity.
  - assert (Search.candidates [97; 98] 2 = [[97]; [97; 97]]) as ->
      by (vm_compute; reflexivity).
    repeat (constructor; [vm_compute; reflexivity|]). constructor.
Defined.

(** ** The search on any backend *)

Section Exits.
Variable status : list cl_call -> cl_call -> Z.
Variable now : list cl_call -> Z.
Variable P : result -> Prop.
Hypothesis Pthrow : forall what, P (Throw what).
Hypothesis Paccepted : forall d, is_valid_plaintext d = true -> P (Return d).

Lemma exits_bind {A B : Type} (c : M A) (k : A -> M B) :
  exits_with P c -> (forall a, exits_with P (k a)) -> exits_with P (bind c k).
Proof.
  intros Hc Hk m. unfold bind. specialize (Hc m).
  destruct (c m) as [[a|r] m1]; [apply Hk|exact Hc].
Qed.

Lemma exits_go {A : Type} (c : M A) :
  (forall m, exists a m', c m = (Go a, m')) -> exits_with P c.
Proof. intros H m. by destruct (H m) as (a & m' & ->). Qed.

Lemma exits_check err text what : exits_with P (Search.check err text what).
Proof.
  unfold Search.check. destruct (err =? CL_SUCCESS).
  - apply exits_go. by eexists _, _.
  - apply exits_bind; [apply exits_go; by eexists _, _|].
    intros _ m. apply Pthrow.
Qed.

Ltac step_exits :=
  first [ apply exits_check
        | apply exits_go; intros ?; by eexists _, _
        | apply exits_bind; [|intros ?] ].

Lemma exits_attempt ct eb db t0 key_length key_str :
  exits_with P (Search.attempt status now ct eb db t0 key_length key_str).
Proof.
  unfold Search.attempt. repeat step_exits.
  match goal with
  | |- context [is_valid_plaintext ?d] => destruct (is_valid_plaintext d) eqn:E
  end; repeat step_exits.
  intros m. by apply Paccepted.
Qed.

Lemma exits_attempts ct eb db t0 keys :
  exits_with P (Search.attempts status now ct eb db t0 keys).
Proof.
  induction keys as [|k keys IH]; simpl.
  - apply exits_go. intros ?. by eexists _, _.
  - apply exits_bind; [apply exits_attempt|]. intros _. apply IH.
Qed.

Lemma exits_length_loop count ct charset eb db t0 :
  exits_with P (Search.length_loop status now count ct charset eb db t0 1).
Proof.
  intros m. rewrite length_loop_attempts by lia. apply exits_attempts.
Qed.

Lemma exits_initialise ct : exits_with P (Search.initialise status ct).
Proof.
  unfold Search.initialise. repeat step_exits.
  match goal with
  | |- context [?e =? CL_SUCCESS] => destruct (e =? CL_SUCCESS)
  end; repeat step_exits.
  intros m. apply Pthrow.
Qed.

Lemma exits_body ct charset max_key_length :
  P (Return []) ->
  exits_with P (Search.body status now ct charset max_key_length).
Proof.
  intros Pempty. unfold Search.body.
  apply exits_bind; [apply exits_initialise|]. intros bufs.
  apply exits_bind; [step_exits|]. intros start_time.
  apply exits_bind; [apply exits_length_loop|]. intros _.
  repeat step_exits. by intros m.
Qed.
End Exits.

(** On every backend, failing or not, a call of [brute_force_rc4_gpu] ends:
    it throws, or returns the empty vector, or returns a vector that the
    validator accepts.  The bound the model puts on the [do ... while] loop
    is never reached. *)
Theorem search_ends_well status now ct charset max_key_length :
  well_ended
    (fst (Search.brute_force_rc4_gpu status now ct charset max_key_length)).
Proof.
  unfold Search.brute_force_rc4_gpu.
  pose proof (exits_body status now well_ended (fun _ => I)
                (fun d H => or_intror H) ct charset max_key_length
                (or_introl eq_refl) Search.power_on) as H.
  by destruct (Search.body status now ct charset max_key_length Search.power_on)
    as [[[]|r] m].
Qed.

(** ** [main] *)

Lemma search_result_by_first_key status now ct charset max_key_length :
  (forall h c, status h c = CL_SUCCESS) ->
  Z.of_nat (length ct) < 2 ^ 31 ->
  1 <= max_key_length ->
  fst (Search.brute_force_rc4_gpu status now ct charset max_key_length)
  = if is_valid_plaintext (Search.dispatch ct [Search.charset_front charset])
    then Return (Search.dispatch ct [Search.charset_front charset])
    else Return [].
Proof.
  intros Hok Hsize Hmax.
  destruct (candidates_first charset max_key_length Hmax) as [post Hsplit].
  rewrite search_as_attempts by done.
  destruct (is_valid_plaintext (Search.dispatch ct [Search.charset_front charset]))
    eqn:Hfirst.
  - rewrite Hsplit.
    destruct (attempts_found status now Hok ct Hsize 7 8
                (now (Search.setup_calls ct)) [] [Search.charset_front charset]
                post (Search.ready ct) (ready_device_out ct) (Forall_nil_2 _)
                Hfirst)
      as (m & E & _).
    rewrite app_nil_l in E. by rewrite E.
  - pose proof (candidates_all_rejected ct charset max_key_length Hfirst) as Hrej.
    by destruct (attempts_rejected status now Hok ct Hsize 7 8
                   (now (Search.setup_calls ct)) _ (Search.ready ct)
                   (ready_device_out ct) Hrej)
      as (m & -> & _).
Qed.

(** Whatever the backend and the files: [main] returns 0 or 1; it writes
    [decrypted_file.bin] only with a non-empty buffer that the validator
    accepts, and then returns 0; and without a readable
    [encrypted_file.bin] it returns 1 without a call to the backend. *)
Theorem main_never_writes_rejected status now fs :
  let o := Main.main status now fs in
  (Main.exit_code o = Some 0 \/ Main.exit_code o = Some 1) /\
  (forall d, Main.written o = Some d ->
     d <> [] /\ is_valid_plaintext d = true /\
     Main.exit_code o = Some 0 /\ Main.output_opens fs = true) /\
  (Main.encrypted_file fs = None ->
     Main.calls o = [] /\ Main.exit_code o = Some 1 /\ Main.written o = None).
Proof.
  cbv zeta. unfold Main.main.
  destruct (Main.encrypted_file fs) as [ct|]; [|by repeat split; auto].
  pose proof (exits_body status now well_ended (fun _ => I)
                (fun d H => or_intror H) ct Main.charset Main.max_key_length
                (or_introl eq_refl) Search.power_on) as Hend.
  unfold Search.brute_force_rc4_gpu.
  destruct (Search.body status now ct Main.charset Main.max_key_length
              Search.power_on) as [[[]|[d|what|]] m]; simpl in Hend.
  - destruct d as [|b d]; [by repeat split; auto|].
    destruct Hend as [|Hvalid]; [done|].
    destruct (Main.output_opens fs); simpl.
    + split; [by left|]. split; [|done]. by intros d' [= <-].
    + split; [by right|]. split; [|done]. by intros d'.
  - simpl. split; [by right|]. split; [|done]. by intros d'.
  - done.
Qed.

(** Whatever the backend: if a call whose status the code tests has failed,
    [main] returns 1, writes no file, and its last line is "Error: "
    followed by the message of that kind of call. *)
Theorem main_backend_failure status now fs (i : nat) (c : cl_call) :
  let o := Main.main status now fs in
  Main.calls o !! i = Some c ->
  Search.checked c = true ->
  status (take i (Main.calls o)) c <> CL_SUCCESS ->
  Main.exit_code o = Some 1 /\
  Main.written o = None /\
  last (Main.lines o) = Some (Cerr, [Text "Error: "; Text (Search.diagnosis c)]).
Proof.
  cbv zeta. unfold Main.main.
  destruct (Main.encrypted_file fs) as [ct|]; [|done].
  pose proof (sound_body status now ct Main.charset Main.max_key_length
                Search.power_on (clean_nil status)) as Hpost.
  unfold Search.brute_force_rc4_gpu.
  destruct (Search.body status now ct Main.charset Main.max_key_length
              Search.power_on) as [[[]|r] m].
  unfold Search.post in Hpost.
  assert (forall t, t = trace m -> Search.clean status t ->
            t !! i = Some c -> Search.checked c = true ->
            status (take i t) c <> CL_SUCCESS -> False) as Hclean.
  { intros t -> Hcl Hi Hc Hs. apply Hs. by apply Hcl. }
  destruct r as [d|what|].
  - destruct d as [|b d]; [|destruct (Main.output_opens fs)]; simpl;
      intros Hi Hc Hs; destruct (Hclean _ eq_refl Hpost Hi Hc Hs).
  - simpl. intros Hi Hc Hs.
    destruct Hpost as [(c0 & Hab & ->) _].
    destruct (aborted_inspect status _ c0 c i Hab Hi Hc Hs) as [-> _].
    repeat split. apply last_snoc.
  - simpl. intros Hi Hc Hs. destruct (Hclean _ eq_refl Hpost Hi Hc Hs).
Qed.

Lemma main_backend_failure_witness :
  let status := fun (_ : list cl_call) (c : cl_call) =>
                  match c with clEnqueueReadBuffer _ _ => -5 | _ => CL_SUCCESS end in
  let now := fun t : list cl_call => Z.of_nat (length t) in
  let o := Main.main status now (Main.Files (Some [1; 2; 3]) true) in
  Main.exit_code o = Some 1 /\
  Main.written o = None /\
  last (Main.lines o)
  = Some (Cerr, [Text "Error: "; Text (Search.diagnosis (clEnqueueReadBuffer 8 3))]).
Proof.
  apply (main_backend_failure
           (fun _ c => match c with clEnqueueReadBuffer _ _ => -5 | _ => CL_SUCCESS end)
           (fun t => Z.of_nat (length t)) (Main.Files (Some [1; 2; 3]) true)
           16 (clEnqueueReadBuffer 8 3)).
  - vm_compute. reflexivity.
  - reflexivity.
  - vm_compute. discriminate.
Defined.

(** With a working backend and a readable ciphertext of fewer than 2^31
    bytes, [main] writes [decrypted_file.bin] exactly when the ciphertext is
    not empty, its decryption under the one-character key "a" is accepted
    and the file can be opened; what it writes is that decryption.  It
    returns 1 only when the file cannot be opened. *)
Theorem main_with_working_backend status now fs ct :
  (forall h c, status h c = CL_SUCCESS) ->
  Main.encrypted_file fs = Some ct ->
  Z.of_nat (length ct) < 2 ^ 31 ->
  let o := Main.main status now fs in
  let d := Search.dispatch ct [97] in
  if is_valid_plaintext d && negb (Nat.eqb (length ct) 0)
  then if Main.output_opens fs
       then Main.written o = Some d /\ Main.exit_code o = Some 0
       else Main.written o = None /\ Main.exit_code o = Some 1
  else Main.written o = None /\ Main.exit_code o = Some 0.
Proof.
  intros Hok Hfile Hsize. cbv zeta. unfold Main.main. rewrite Hfile.
  pose proof (search_result_by_first_key status now ct Main.charset
                Main.max_key_length Hok Hsize ltac:(done)) as Hres.
  change (Search.charset_front Main.charset) with 97 in Hres.
  pose proof (dispatch_length ct [97]) as Hlen.
  destruct (Search.brute_force_rc4_gpu status now ct Main.charset
              Main.max_key_length) as [r m].
  simpl in Hres. subst r.
  destruct (is_valid_plaintext (Search.dispatch ct [97])); simpl; [|done].
  destruct (Search.dispatch ct [97]) as [|b d]; destruct ct as [|x ct];
    try done; simpl.
  by destruct (Main.output_opens fs).
Qed.

Lemma main_with_working_backend_witness :
  let status := fun (_ : list cl_call) (_ : cl_call) => CL_SUCCESS in
  let now := fun t : list cl_call => Z.of_nat (length t) in
  let fs := Main.Files (Some [225]) true in
  let o := Main.main status now fs in
  let d := Search.dispatch [225] [97] in
  if is_valid_plaintext d && negb (Nat.eqb (length [225]) 0)
  then if Main.output_opens fs
       then Main.written o = Some d /\ Main.exit_code o = Some 0
       else Main.written o = None /\ Main.exit_code o = Some 1
  else Main.written o = None /\ Main.exit_code o = Some 0.
Proof.
  apply (main_with_working_backend
           (fun _ _ => CL_SUCCESS) (fun t => Z.of_nat (length t))
           (Main.Files (Some [225]) true) [225]).
  - reflexivity.
  - reflexivity.
  - reflexivity.
Defined.
